(** * dax_imgserv: the catalog crawler (python/lsst/imgserv/crawler.py)

    A shallow embedding of the [Crawler] class: the scan cycle [run], the
    self-rescheduling wrapper [_run], the checksum helper [get_cksum], the
    metadata hook [get_metadata], the constructor and [start].

    The code is read as Python 3, the language of the repository: what a
    pipe delivers is [bytes], and [IOError] is another name of [OSError].

    The crawler talks to the outside world only through a handful of calls
    (the datacat client, [os.stat], the [cksum] subprocess, the credential
    file, the database handle, the clock, standard output).  Each of them is
    an oracle of the environment [Env]; every call is appended to a trace and
    advances an explicit clock, so that what the program did, in which order
    and when, can be read off the final world. *)

From Stdlib Require Import ZArith Ascii String List Lia.
From stdpp Require Import base option list strings gmap.

Open Scope Z_scope.
Open Scope string_scope.
Open Scope list_scope.

(** ** Data model *)

(** A dataset location as returned by the catalog: [location.site] and
    [location.resource]. *)
Record Location := mkLocation {
  site : string;
  resource : string
}.

(** A dataset as used by [run]: [dataset.path], [dataset.versionId] and
    [dataset.locations] (in the order the catalog returned them). *)
Record Dataset := mkDataset {
  path : string;
  versionId : Z;
  locations : list Location
}.

(** [DcException]: the handler of [run] probes its attributes with
    [hasattr], so each attribute may be absent. *)
Record DcException := mkDcException {
  message : option string;
  type_ : option string;
  cause : option string;
  content : option string
}.

(** The exceptions that can travel through the crawler. *)
Inductive Exn :=
| DcExc (e : DcException)
| SystemExit (code : Z)
| AttributeError (msg : string)
| KeyError (key : string)
| IndexError
| TypeError (msg : string)
| OSError (filename : string).

(** [IOError] is another name of the class [OSError]: an [IOError] is the
    constructor [OSError] here. *)

(** A string object is either text ([str]) or [bytes]. *)
Inductive PyText :=
| PyStr (s : string)
| PyBytes (b : string).

(** A separator of one character, given as text or as bytes. *)
Inductive PySep :=
| SepStr (c : ascii)
| SepBytes (c : ascii).

(** Values stored in the [scan_result] dictionary. *)
Inductive PyVal :=
| VInt (n : Z)
| VStr (s : string)
| VMeta (m : gmap string string).

(** [datetime.utcnow()] *)
Record DateTime := mkDateTime {
  year : N; month : N; day : N;
  hour : N; minute : N; second : N
}.

(** The keyword arguments of [client.search]. *)
Record SearchRequest := mkSearchRequest {
  sr_path : string;
  sr_version : string;
  sr_site : string;
  sr_query : string;
  sr_max_num : Z
}.

(** The arguments of [client.patch_dataset]. *)
Record PatchRequest := mkPatchRequest {
  pr_path : string;
  pr_scan_result : gmap string PyVal;
  pr_versionId : Z;
  pr_site : string
}.

(** External actions, in the order the program performs them. *)
Inductive Event :=
| EvReadCredentialFile (file : string)
| EvDbOpen (file db : string)
| EvSearch (req : SearchRequest)
| EvPrint (line : string)
| EvStat (file : string)
| EvCksum (file : string)
| EvUtcnow
| EvPatch (req : PatchRequest)
| EvSleep (d : Z).

(** ** Module constants *)

Definition WATCH_FOLDER : string := "/LSST".
Definition WATCH_SITE : string := "NCSA".
Definition RERUN_SECONDS : Z := 5.

(** ** The environment *)

(** Every oracle receives the clock value at the moment of the call, so the
    catalog and the file system may change between calls.  [env_cost] is the
    time an external action takes. *)
Record Env := mkEnv {
  env_readCredentialFile : Z -> string -> Exn + gmap string string;
  env_dbOpen : Z -> string -> string -> option Exn;
  env_search : Z -> SearchRequest -> DcException + list Dataset;
  env_stat : Z -> string -> Exn + N;
  env_cksum : Z -> string -> Exn + (Z * string);
  env_utcnow : Z -> DateTime;
  env_patch : Z -> PatchRequest -> option DcException;
  env_cost : Z -> Event -> N
}.

(** ** The scheduler queue ([sched.scheduler]) *)

(** The only callable the crawler ever schedules is its own [_run]. *)
Inductive Action := Act_run.

Record SchedEvent := mkSchedEvent {
  ev_time : Z;
  ev_priority : Z;
  ev_action : Action
}.

(** ** The world and the monad *)

(** [now] is [time.time()], [trace] the external actions performed so far,
    each with the time it started at (oldest first), [queue] the scheduler's
    [_queue]. *)
Record World := mkWorld {
  now : Z;
  trace : list (Z * Event);
  queue : list SchedEvent
}.

Inductive Result (A : Type) :=
| Ret (a : A)
| Raise (e : Exn).
Arguments Ret {A} a.
Arguments Raise {A} e.

Definition M (A : Type) : Type := World -> Result A * World.

Definition ret {A} (a : A) : M A := fun w => (Ret a, w).
Definition raise {A} (e : Exn) : M A := fun w => (Raise e, w).
Definition bind {A B} (m : M A) (k : A -> M B) : M B :=
  fun w => match m w with
           | (Ret a, w') => k a w'
           | (Raise e, w') => (Raise e, w')
           end.

#[global] Instance M_ret : MRet M := @ret.
#[global] Instance M_bind : MBind M := fun A B k m => bind m k.

(** [try: m except DcException as error: h error] *)
Definition try_DcException {A} (m : M A) (h : DcException -> M A) : M A :=
  fun w => match m w with
           | (Raise (DcExc e), w') => h e w'
           | r => r
           end.

(** An external action: logged, and the clock moves by its cost. *)
Definition emit (E : Env) (ev : Event) : M unit :=
  fun w => (Ret tt,
            {| now := now w + Z.of_N (env_cost E (now w) ev);
               trace := trace w ++ [(now w, ev)];
               queue := queue w |}).

Definition get_now : M Z := fun w => (Ret (now w), w).

Definition lift_sum {A} (r : Exn + A) : M A :=
  match r with
  | inl e => raise e
  | inr a => ret a
  end.

(** ** LocationResolver: the inner loop of [run] (lines 86-90)

<<
    check_location = None
    for location in locations:
        if location.site == WATCH_SITE:
            check_location = location
            break
>> *)
Fixpoint resolve_location (locs : list Location) (wanted : string)
  : option Location :=
  match locs with
  | [] => None
  | location :: rest =>
      if String.eqb (site location) wanted then Some location
      else resolve_location rest wanted
  end.

(** ** Strings: [split], [str] and [strftime] *)

(** [s.split(sep)] for a one-character separator: every occurrence of [sep]
    ends a field, empty fields are kept, and the result is never empty
    (the empty string splits to a list holding the empty string). *)
Fixpoint split_on (sep : ascii) (s : string) : list string :=
  match s with
  | EmptyString => [EmptyString]
  | String c s' =>
      if Ascii.eqb c sep then EmptyString :: split_on sep s'
      else match split_on sep s' with
           | field :: fields => String c field :: fields
           | [] => [String c EmptyString]
           end
  end.

(** [x.split(sep)]: the separator must be of the same kind as the string
    that is split. *)
Definition py_split (x : PyText) (sep : PySep) : Exn + list PyText :=
  match x, sep with
  | PyStr s, SepStr c => inr (PyStr <$> split_on c s)
  | PyBytes b, SepBytes c => inr (PyBytes <$> split_on c b)
  | PyBytes _, SepStr _ =>
      inl (TypeError "a bytes-like object is required, not 'str'")
  | PyStr _, SepBytes _ => inl (TypeError "must be str or None, not bytes")
  end.

(** [str(x)]: text is returned as it is, bytes are shown as a literal
    (written out here for bytes that need no escape). *)
Definition py_str (x : PyText) : string :=
  match x with
  | PyStr s => s
  | PyBytes b => "b'" +:+ b +:+ "'"
  end.

Definition digit (n : N) : ascii := ascii_of_N (48 + n mod 10).

(** [%m], [%d], [%H], [%M], [%S]: two digits, zero padded (these fields of
    a [datetime] are below 100). *)
Definition pad2 (n : N) : string :=
  String (digit (n / 10)) (String (digit n) EmptyString).

Definition pad4 (n : N) : string :=
  String (digit (n / 1000)) (String (digit (n / 100)) (pad2 n)).

(** [%Y]: the year in decimal, without padding; the year of a [datetime]
    lies in 1..9999. *)
Definition strftime_Y (y : N) : string :=
  if (y <? 10)%N then String (digit y) EmptyString
  else if (y <? 100)%N then pad2 y
  else if (y <? 1000)%N then String (digit (y / 100)) (pad2 y)
  else pad4 y.

(** [dt.strftime('%Y-%m-%dT%H:%M:%SZ')] *)
Definition strftime_iso_Z (dt : DateTime) : string :=
  strftime_Y (year dt) +:+ "-" +:+ pad2 (month dt) +:+ "-" +:+
  pad2 (day dt) +:+ "T" +:+ pad2 (hour dt) +:+ ":" +:+ pad2 (minute dt) +:+
  ":" +:+ pad2 (second dt) +:+ "Z".

Definition newline : string := String (ascii_of_nat 10) EmptyString.

(** Truth value of what [get_metadata] returns: [None] and the empty
    mapping are false. *)
Definition truthy (md : option (gmap string string)) : bool :=
  match md with
  | Some m => negb (bool_decide (m = ∅))
  | None => false
  end.

(** ** The scheduler of the standard library, as the crawler uses it *)

Definition event_le (a b : SchedEvent) : bool :=
  ((ev_time a <? ev_time b) ||
   ((ev_time a =? ev_time b) && (ev_priority a <=? ev_priority b)))%Z.

(** [heapq.heappush]: the queue is kept ordered by (time, priority). *)
Fixpoint heappush (ev : SchedEvent) (q : list SchedEvent) : list SchedEvent :=
  match q with
  | [] => [ev]
  | first :: rest =>
      if event_le first ev then first :: heappush ev rest
      else ev :: q
  end.

Definition set_queue (q : list SchedEvent) : M unit :=
  fun w => (Ret tt, {| now := now w; trace := trace w; queue := q |}).

Definition get_queue : M (list SchedEvent) := fun w => (Ret (queue w), w).

(** [scheduler.enterabs(time, priority, action, ())] *)
Definition sched_enterabs (time priority : Z) (action : Action) : M unit :=
  q ← get_queue;
  set_queue (heappush (mkSchedEvent time priority action) q).

(** [scheduler.enter(delay, priority, action, ())]: the delay counts from
    the value of [timefunc()] when [enter] is called. *)
Definition sched_enter (delay priority : Z) (action : Action) : M unit :=
  time ← get_now;
  sched_enterabs (time + delay) priority action.

Section Crawler.

Variable E : Env.

(** The metadata hook; [Crawler.get_metadata] below is the one the class
    defines, a subclass may supply another. *)
Variable get_metadata : string -> option (gmap string string).

(** A call to the outside: the oracle is asked at the time the call
    starts. *)
Definition call {A} (ev : Event) (oracle : Z -> Exn + A) : M A :=
  t ← get_now;
  emit E ev;;
  lift_sum (oracle t).

Definition print (line : string) : M unit := emit E (EvPrint line).

(** [time.sleep(d)] *)
Definition sleep (d : Z) : M unit :=
  fun w => (Ret tt,
            {| now := now w + d + Z.of_N (env_cost E (now w) (EvSleep d));
               trace := trace w ++ [(now w, EvSleep d)];
               queue := queue w |}).

(** [get_cksum] (lines 46-54).  [Popen] is given no text mode, so
    [cksum_proc.stdout.read()] is a [bytes] object; it is split by the text
    [" "]. *)
Definition get_cksum (file : string) : M PyText :=
  '(ec, out) ← call (EvCksum file) (fun t => env_cksum E t file);
  (if negb (ec =? 0)%Z
   then (* Handle error here, or raise exception/error *) mret tt
   else mret tt);;
  cksum_out ← lift_sum (py_split (PyBytes out) (SepStr " "));
  match cksum_out with
  | cksum :: _ => mret cksum
  | [] => raise IndexError
  end.

(** [client.search(...)] followed by [unpack(resp.content)] *)
Definition client_search (req : SearchRequest) : M (list Dataset) :=
  t ← get_now;
  emit E (EvSearch req);;
  match env_search E t req with
  | inl error => raise (DcExc error)
  | inr results => mret results
  end.

(** [client.patch_dataset(...)] *)
Definition client_patch_dataset (req : PatchRequest) : M unit :=
  t ← get_now;
  emit E (EvPatch req);;
  match env_patch E t req with
  | Some error => raise (DcExc error)
  | None => mret tt
  end.

(** The scan result of lines 98-107. *)
Definition build_scan_result (st_size : N) (cksum : PyText)
    (utcnow : DateTime) (md : option (gmap string string))
  : gmap string PyVal :=
  let scan_result : gmap string PyVal := ∅ in
  let scan_result := <["size" := VInt (Z.of_N st_size)]> scan_result in
  let scan_result := <["checksum" := VStr (py_str cksum)]> scan_result in
  let scan_result :=
    <["locationScanned" := VStr (strftime_iso_Z utcnow)]> scan_result in
  let scan_result := <["scanStatus" := VStr "OK"]> scan_result in
  match md with
  | Some m => if truthy md then <["versionMetadata" := VMeta m]> scan_result
              else scan_result
  | None => scan_result
  end.

(** The body of the [for dataset in results] loop (lines 85-114). *)
Definition process_dataset (dataset : Dataset) : M unit :=
  let check_location := resolve_location (locations dataset) WATCH_SITE in
  file_path ← match check_location with
              | Some location => mret (resource location)
              | None => raise (AttributeError
                  "'NoneType' object has no attribute 'resource'")
              end;
  let dataset_path := path dataset in
  st_size ← call (EvStat file_path) (fun t => env_stat E t file_path);
  cksum ← get_cksum file_path;
  utcnow ← call EvUtcnow (fun t => inr (env_utcnow E t));
  let md := get_metadata file_path in
  let scan_result := build_scan_result st_size cksum utcnow md in
  try_DcException
    (client_patch_dataset
       (mkPatchRequest dataset_path scan_result (versionId dataset) WATCH_SITE))
    (fun error => print "Encountered error while updating dataset").

Fixpoint for_each {A} (items : list A) (body : A -> M unit) : M unit :=
  match items with
  | [] => mret tt
  | item :: rest => body item;; for_each rest body
  end.

(** The [except DcException as error] handler of the search
    (lines 70-80). *)
Definition search_failed (error : DcException) : M (list Dataset) :=
  match message error with
  | Some msg =>
      print ("Error occurred:" +:+ newline +:+ "Message: " +:+ msg);;
      match type_ error with
      | Some t => print ("Type: " +:+ t)
      | None => mret tt
      end;;
      match cause error with
      | Some c => print ("Cause: " +:+ c)
      | None => mret tt
      end
  | None =>
      match content error with
      | Some c => print c
      | None => raise (AttributeError
          "'DcException' object has no attribute 'content'")
      end
  end;;
  raise (SystemExit 1).

Definition the_search_request : SearchRequest :=
  {| sr_path := WATCH_FOLDER;
     sr_version := "current";
     sr_site := "all";
     sr_query := "scanStatus = 'UNSCANNED'";
     sr_max_num := 1000 |}.

(** Lines 61-64: the credential file and the metadata database. *)
Definition open_metadata_db : M unit :=
  let credFileName := "~/.mysqlAuthLSST" in
  creds ← call (EvReadCredentialFile credFileName)
               (fun t => env_readCredentialFile E t credFileName);
  user ← match creds !! "user" with
         | Some u => mret u
         | None => raise (KeyError "user")
         end;
  let dbName := user +:+ "_fitsTest" in
  t ← get_now;
  emit E (EvDbOpen credFileName dbName);;
  match env_dbOpen E t credFileName dbName with
  | Some e => raise e
  | None => mret tt
  end.

(** [Crawler.run] (lines 60-114) *)
Definition run : M unit :=
  open_metadata_db;;
  results ← try_DcException (client_search the_search_request) search_failed;
  for_each results process_dataset.

(** [Crawler._run] (lines 42-44) *)
Definition _run : M unit :=
  run;;
  sched_enter RERUN_SECONDS 1 Act_run.

Definition perform (action : Action) : M unit :=
  match action with
  | Act_run => _run
  end.

(** [scheduler.run()]: while the queue is not empty, sleep until the first
    event is due, then pop it and call its action.  [fuel] bounds the
    number of iterations of the [while] loop; the outcome is [None] when
    the loop is still going after [fuel] iterations. *)
Fixpoint sched_run (fuel : nat) (w : World) : option (Result unit) * World :=
  match queue w with
  | [] => (Some (Ret tt), w)
  | event :: rest =>
      match fuel with
      | O => (None, w)
      | S fuel' =>
          if (now w <? ev_time event)%Z then
            sched_run fuel' (sleep (ev_time event - now w) w).2
          else
            match (set_queue rest;; perform (ev_action event);; sleep 0) w with
            | (Ret _, w') => sched_run fuel' w'
            | (Raise e, w') => (Some (Raise e), w')
            end
      end
  end.

(** [Crawler.__init__] (lines 34-37); the client object carries no state
    the crawler reads. *)
Definition Crawler_init : M unit :=
  set_queue [];;
  _run.

(** [Crawler.start] (lines 39-40) *)
Definition start (fuel : nat) (w : World) : option (Result unit) * World :=
  sched_run fuel w.

(** [main] (lines 118-120) *)
Definition main (fuel : nat) (w : World) : option (Result unit) * World :=
  match Crawler_init w with
  | (Ret _, w') => start fuel w'
  | (Raise e, w') => (Some (Raise e), w')
  end.

End Crawler.

(** [Crawler.get_metadata] (lines 56-57) *)
Definition Crawler_get_metadata (file : string) : option (gmap string string) :=
  None.

(** ** Concrete worlds, used to run the crawler *)

Definition initial_world : World := {| now := 0; trace := []; queue := [] |}.

(** An environment whose catalog and file system do not change with time;
    the credential file names the user [crawler] and the database opens. *)
Definition static_env
    (search : DcException + list Dataset)
    (stat : string -> Exn + N)
    (cksum : string -> Exn + (Z * string))
    (patch : PatchRequest -> option DcException)
    (cost : Event -> N) : Env :=
  {| env_readCredentialFile := fun _ _ => inr {[ "user" := "crawler" ]};
     env_dbOpen := fun _ _ _ => None;
     env_search := fun _ _ => search;
     env_stat := fun _ => stat;
     env_cksum := fun _ => cksum;
     env_utcnow := fun _ => mkDateTime 2016 3 1 12 30 5;
     env_patch := fun _ => patch;
     env_cost := fun _ => cost |}.

Definition dataset_d1 : Dataset :=
  mkDataset "/d/1" 7 [mkLocation "NCSA" "/data/f1.fits"].
Definition dataset_d2 : Dataset :=
  mkDataset "/d/2" 3
    [mkLocation "SLAC" "/nfs/f2.fits"; mkLocation "NCSA" "/data/f2.fits"].
Definition dataset_d3 : Dataset :=
  mkDataset "/d/3" 1 [mkLocation "NCSA" "/data/f3.fits"].
Definition dataset_other : Dataset :=
  mkDataset "/d/other" 7 [mkLocation "OTHER" "/data/f1.fits"].

Definition stat_2048 (file : string) : Exn + N := inr 2048%N.
Definition cksum_abc123 (file : string) : Exn + (Z * string) :=
  inr (0, "abc123 2048 " +:+ file +:+ newline).
Definition patch_accepted (req : PatchRequest) : option DcException := None.
Definition instantaneous (ev : Event) : N := 0%N.

Definition connection_refused : DcException :=
  mkDcException (Some "Connection refused") (Some "ConnectionError") None None.

(** One dataset replicated at NCSA, a file of 2048 bytes with checksum
    [abc123]. *)
Definition scenario_env : Env :=
  static_env (inr [dataset_d1]) stat_2048 cksum_abc123 patch_accepted
             instantaneous.

(** The catalog cannot be reached. *)
Definition unreachable_env : Env :=
  static_env (inl connection_refused) stat_2048 cksum_abc123 patch_accepted
             instantaneous.

(** Three datasets, all replicated at NCSA; the file of the second is not
    on disk. *)
Definition isolation_env : Env :=
  static_env (inr [dataset_d1; dataset_d2; dataset_d3])
             (fun file => if String.eqb file "/data/f2.fits"
                          then inl (OSError file) else inr 2048%N)
             cksum_abc123 patch_accepted instantaneous.

(** Two datasets; the file of the first is not on disk. *)
Definition missing_file_env : Env :=
  static_env (inr [dataset_d2; dataset_d3])
             (fun file => if String.eqb file "/data/f2.fits"
                          then inl (OSError file) else inr 2048%N)
             cksum_abc123 patch_accepted instantaneous.

(** Two datasets; the first has no location at the watch site. *)
Definition missing_location_env : Env :=
  static_env (inr [dataset_other; dataset_d3]) stat_2048
             cksum_abc123 patch_accepted instantaneous.

(** The file is on disk but cannot be read: [cksum] prints nothing on its
    standard output and exits with status 1. *)
Definition unreadable_env : Env :=
  static_env (inr [dataset_d1]) stat_2048 (fun _ => inr (1, EmptyString))
             patch_accepted instantaneous.

(** Nothing is waiting to be scanned. *)
Definition idle_env : Env :=
  static_env (inr []) stat_2048 cksum_abc123 patch_accepted instantaneous.

(** Nothing is waiting to be scanned, and the catalog search takes three
    seconds. *)
Definition slow_env : Env :=
  static_env (inr []) stat_2048 cksum_abc123 patch_accepted
             (fun ev => match ev with EvSearch _ => 3%N | _ => 0%N end).

(** ** Observations on traces *)

Definition search_of (te : Z * Event) : option SearchRequest :=
  match te.2 with EvSearch req => Some req | _ => None end.

Definition patch_of (te : Z * Event) : option PatchRequest :=
  match te.2 with EvPatch req => Some req | _ => None end.

Definition print_of (te : Z * Event) : option string :=
  match te.2 with EvPrint line => Some line | _ => None end.

Definition stat_of (te : Z * Event) : option string :=
  match te.2 with EvStat file => Some file | _ => None end.

(** The files [os.stat] was called on, in order. *)
Definition stat_files (tr : list (Z * Event)) : list string :=
  omap stat_of tr.

(** The searches, patch calls and printed lines of a trace, in order. *)
Definition searches (tr : list (Z * Event)) : list SearchRequest :=
  omap search_of tr.
Definition patches (tr : list (Z * Event)) : list PatchRequest :=
  omap patch_of tr.
Definition printed (tr : list (Z * Event)) : list string :=
  omap print_of tr.

(** The clock once an action started at [t] is over. *)
Definition after (E : Env) (ev : Event) (t : Z) : Z :=
  t + Z.of_N (env_cost E t ev).

(** The world once an action is logged. *)
Definition logged (E : Env) (ev : Event) (w : World) : World :=
  {| now := after E ev (now w);
     trace := trace w ++ [(now w, ev)];
     queue := queue w |}.

(** The kinds of action a computation may perform. *)
Definition is_print (ev : Event) : Prop :=
  match ev with EvPrint _ => True | _ => False end.

Definition is_scan_action (ev : Event) : Prop :=
  match ev with
  | EvStat _ | EvCksum _ | EvUtcnow | EvPatch _ | EvPrint _ => True
  | _ => False
  end.

Definition is_run_action (ev : Event) : Prop :=
  match ev with
  | EvSleep _ => False
  | _ => True
  end.

(** [only P m]: whatever its outcome, [m] only appends actions satisfying
    [P] to the trace, leaves the scheduler queue alone and never turns the
    clock back. *)
Definition only {A} (P : Event -> Prop) (m : M A) : Prop :=
  forall w, exists evs,
    trace (m w).2 = trace w ++ evs /\
    Forall (fun te => P te.2) evs /\
    queue (m w).2 = queue w /\
    now w <= now (m w).2.

Definition is_db_action (ev : Event) : Prop :=
  match ev with
  | EvReadCredentialFile _ | EvDbOpen _ _ => True
  | _ => False
  end.

(** The times at which the searches of a trace started. *)
Definition search_times (tr : list (Z * Event)) : list Z :=
  omap (fun te => match te.2 with EvSearch _ => Some te.1 | _ => None end) tr.

(** The lines the handler of a failed search prints for [error]. *)
Definition report_lines (error : DcException) : list string :=
  match message error with
  | Some msg =>
      ["Error occurred:" +:+ newline +:+ "Message: " +:+ msg] ++
      match type_ error with Some t => ["Type: " +:+ t] | None => [] end ++
      match cause error with Some c => ["Cause: " +:+ c] | None => [] end
  | None =>
      match content error with Some c => [c] | None => [] end
  end.

(** The world in which the scheduler hands over to a due event: the event
    has been popped, the queue is what remains. *)
Definition with_queue (q : list SchedEvent) (w : World) : World :=
  {| now := now w; trace := trace w; queue := q |}.

(** ** Further observations, for the behaviour of whole cycles *)

(** [spaced d ts]: every time of [ts] is at least [d] after all the times
    before it. *)
Fixpoint spaced (d : Z) (ts : list Z) : Prop :=
  match ts with
  | [] => True
  | t :: rest => Forall (fun t' => t + d <= t') rest /\ spaced d rest
  end.



(** The file-system actions of a trace. *)
Definition is_file_action (ev : Event) : bool :=
  match ev with
  | EvStat _ | EvCksum _ => true
  | _ => false
  end.

(** The oracles outside the catalog client never answer with the catalog's
    own exception. *)
Definition not_DcException (e : Exn) : Prop :=
  match e with DcExc _ => False | _ => True end.

Definition catalog_errors_from_catalog_only (E : Env) : Prop :=
  (forall t file e, env_readCredentialFile E t file = inl e ->
                    not_DcException e) /\
  (forall t file db e, env_dbOpen E t file db = Some e -> not_DcException e) /\
  (forall t file e, env_stat E t file = inl e -> not_DcException e) /\
  (forall t file e, env_cksum E t file = inl e -> not_DcException e).


(** The searches made since the trace was [tr0] are [RERUN_SECONDS] apart
    and all lie [RERUN_SECONDS] or more before [ready]. *)
Definition cadence (tr0 : list (Z * Event)) (ready : Z) (w : World) : Prop :=
  exists evs,
    trace w = tr0 ++ evs /\
    spaced RERUN_SECONDS (search_times evs) /\
    Forall (fun t => t + RERUN_SECONDS <= ready) (search_times evs).

(** What the scheduler loop keeps true: at most one event is pending, and
    it is not due before the searches made so far allow. *)
Definition sched_inv (tr0 : list (Z * Event)) (w : World) : Prop :=
  (length (queue w) <= 1)%nat /\
  exists ready,
    cadence tr0 ready w /\
    Forall (fun event => ready <= ev_time event) (queue w).

(** * The image server: python/lsst/dax/imgserv/locateImage.py and
    bin/imageServer.py

    Strings are sequences of bytes here (the UTF-8 form of the Python
    strings).  The names and the prefix compared against below are ASCII, and
    only ASCII letters are lowered. *)

(** [c.lower()] for one character. *)
Definition ascii_lower (c : ascii) : ascii :=
  let n := N_of_ascii c in
  if ((65 <=? n) && (n <=? 90))%N then ascii_of_N (n + 32) else c.

(** [s.lower()] *)
Fixpoint str_lower (s : string) : string :=
  match s with
  | EmptyString => EmptyString
  | String c s' => String (ascii_lower c) (str_lower s')
  end.

(** The classes [get_ds] chooses from. *)
Inductive W13Class := W13RawDb | W13CalexpDb | W13DeepCoaddDb.

(** [raise Exception(msg)] *)
Inductive PyException := Exception (msg : string).

(** [get_ds] (locateImage.py, lines 85-107) *)
Definition get_ds (image_type : string) : PyException + W13Class :=
  let it := str_lower image_type in
  if String.eqb it "raw" then inr W13RawDb
  else if String.eqb it "calexp" then inr W13CalexpDb
  else if String.eqb it "deepcoadd" then inr W13DeepCoaddDb
  else inl (Exception "Invalid ds parameter").

(** The lower-case name under which [get_ds] knows a class. *)
Definition ds_name (c : W13Class) : string :=
  match c with
  | W13RawDb => "raw"
  | W13CalexpDb => "calexp"
  | W13DeepCoaddDb => "deepcoadd"
  end.

Definition WERKZEUG_PREFIX : string := "dax.webserv.werkzeug.".

(** [key.startswith(prefix)] *)
Fixpoint startswith (key prefix : string) : bool :=
  match prefix, key with
  | EmptyString, _ => true
  | String p prefix', String k key' => Ascii.eqb k p && startswith key' prefix'
  | String _ _, EmptyString => false
  end.

(** [key[n:]] *)
Fixpoint str_from (n : nat) (key : string) : string :=
  match n, key with
  | O, _ => key
  | S n', String _ key' => str_from n' key'
  | S _, EmptyString => EmptyString
  end.

(** The loop of imageServer.py, lines 78-82, over the items of the
    [webserv] section in the order of the dictionary:
<<
    for key, value in webserv_config.items():
        if key.startswith(WERKZEUG_PREFIX):
            werkzeug_options[key[len(WERKZEUG_PREFIX):]] = value
>> *)
Fixpoint extract_werkzeug_options (items : list (string * string))
    (werkzeug_options : gmap string string) : gmap string string :=
  match items with
  | [] => werkzeug_options
  | (key, value) :: rest =>
      extract_werkzeug_options rest
        (if startswith key WERKZEUG_PREFIX
         then <[str_from (String.length WERKZEUG_PREFIX) key := value]>
                werkzeug_options
         else werkzeug_options)
  end.

(** [werkzeug_options = {}] followed by the loop. *)
Definition werkzeug_options_of (items : list (string * string))
  : gmap string string :=
  extract_werkzeug_options items ∅.

(** ** The monad *)

Lemma bind_eq {A B} (m : M A) (k : A -> M B) w :
  (m ≫= k) w = match m w with
                | (Ret a, w') => k a w'
                | (Raise e, w') => (Raise e, w')
                end.
Proof. reflexivity. Qed.

Lemma bind_ret {A B} (m : M A) (k : A -> M B) w a w' :
  m w = (Ret a, w') -> (m ≫= k) w = k a w'.
Proof. intros H. rewrite bind_eq, H. reflexivity. Qed.

Lemma bind_raise {A B} (m : M A) (k : A -> M B) w e w' :
  m w = (Raise e, w') -> (m ≫= k) w = (Raise e, w').
Proof. intros H. rewrite bind_eq, H. reflexivity. Qed.

(** Unfolds the monad operations down to pairs of outcome and world. *)
Ltac unfold_m :=
  unfold mbind, M_bind, bind, mret, M_ret, ret, raise, get_now, lift_sum; cbn.

Lemma emit_eq E ev w : emit E ev w = (Ret tt, logged E ev w).
Proof. reflexivity. Qed.

Section Only.

Context {A : Type} (P : Event -> Prop).

Lemma only_ret (a : A) : only P (mret a).
Proof.
  intros w. exists []. cbn. rewrite app_nil_r. repeat split; [constructor | lia].
Qed.

Lemma only_raise (e : Exn) : only P (raise e : M A).
Proof.
  intros w. exists []. cbn. rewrite app_nil_r. repeat split; [constructor | lia].
Qed.

Lemma only_lift_sum (r : Exn + A) : only P (lift_sum r).
Proof. destruct r; [apply only_raise | apply only_ret]. Qed.

Lemma only_bind {B} (m : M B) (k : B -> M A) :
  only P m -> (forall b, only P (k b)) -> only P (m ≫= k).
Proof.
  intros Hm Hk w. rewrite bind_eq.
  destruct (Hm w) as (evs & Ht & Hall & Hq & Hn).
  destruct (m w) as [[b | e] w1]; cbn in *.
  - destruct (Hk b w1) as (evs' & Ht' & Hall' & Hq' & Hn').
    exists (evs ++ evs'). rewrite Ht', Ht, app_assoc.
    repeat split; [apply Forall_app; auto | congruence | lia].
  - exists evs. auto.
Qed.

Lemma only_try (m : M A) (h : DcException -> M A) :
  only P m -> (forall e, only P (h e)) -> only P (try_DcException m h).
Proof.
  intros Hm Hh w. unfold try_DcException.
  destruct (Hm w) as (evs & Ht & Hall & Hq & Hn).
  destruct (m w) as [[a | e] w1]; cbn in *; [exists evs; auto |].
  destruct e; try (exists evs; cbn; auto; fail).
  destruct (Hh e w1) as (evs' & Ht' & Hall' & Hq' & Hn').
  exists (evs ++ evs'). rewrite Ht', Ht, app_assoc.
  repeat split; [apply Forall_app; auto | congruence | lia].
Qed.

End Only.

Lemma only_emit (P : Event -> Prop) E ev : P ev -> only P (emit E ev).
Proof.
  intros HP w. exists [(now w, ev)]. cbn.
  repeat split; [repeat constructor; exact HP | lia].
Qed.

Lemma only_get_now (P : Event -> Prop) : only P get_now.
Proof.
  intros w. exists []. cbn. rewrite app_nil_r. repeat split; [constructor | lia].
Qed.

Lemma only_mono {A} (P Q : Event -> Prop) (m : M A) :
  (forall ev, P ev -> Q ev) -> only P m -> only Q m.
Proof.
  intros HPQ Hm w. destruct (Hm w) as (evs & Ht & Hall & Hq & Hn).
  exists evs. repeat split; auto.
  eapply Forall_impl; [exact Hall | intros te; apply HPQ].
Qed.

Lemma only_call {A} (P : Event -> Prop) E ev (oracle : Z -> Exn + A) :
  P ev -> only P (call E ev oracle).
Proof.
  intros HP. unfold call.
  apply only_bind; [apply only_get_now | intros t].
  apply only_bind; [apply only_emit, HP | intros _; apply only_lift_sum].
Qed.

Lemma only_for_each {A} (P : Event -> Prop) (body : A -> M unit) items :
  (forall a, only P (body a)) -> only P (for_each items body).
Proof.
  intros Hbody. induction items as [| item rest IH]; cbn.
  - apply only_ret.
  - apply only_bind; [apply Hbody | intros _; exact IH].
Qed.

(** ** LocationResolver *)

Lemma resolve_location_Some locs wanted l :
  resolve_location locs wanted = Some l <->
  exists before rest,
    locs = before ++ l :: rest /\
    site l = wanted /\
    Forall (fun x => site x <> wanted) before.
Proof.
  induction locs as [| x locs IH]; cbn.
  - split; [discriminate |].
    intros (before & rest & Heq & _). destruct before; discriminate.
  - destruct (String.eqb_spec (site x) wanted) as [Hx | Hx].
    + split.
      * intros [= <-]. exists [], locs. repeat split; [exact Hx | constructor].
      * intros (before & rest & Heq & Hl & Hall).
        destruct before as [| y before]; cbn in Heq.
        -- congruence.
        -- injection Heq as <- _. inversion Hall; subst. contradiction.
    + rewrite IH. split.
      * intros (before & rest & -> & Hl & Hall).
        exists (x :: before), rest. repeat split; [exact Hl |].
        constructor; assumption.
      * intros (before & rest & Heq & Hl & Hall).
        destruct before as [| y before]; cbn in Heq.
        -- injection Heq as -> _. contradiction.
        -- injection Heq as <- ->. inversion Hall; subst.
           exists before, rest. auto.
Qed.

Lemma resolve_location_None locs wanted :
  resolve_location locs wanted = None <->
  Forall (fun x => site x <> wanted) locs.
Proof.
  induction locs as [| x locs IH]; cbn.
  - split; [constructor | reflexivity].
  - destruct (String.eqb_spec (site x) wanted) as [Hx | Hx].
    + split; [discriminate |]. intros Hall. inversion Hall; subst. contradiction.
    + rewrite IH. split.
      * intros Hall. constructor; assumption.
      * intros Hall. inversion Hall; assumption.
Qed.

(** ** What each part of the crawler may do *)

Section Frames.

Variable E : Env.
Variable get_metadata : string -> option (gmap string string).

Lemma only_print P line : P (EvPrint line) -> only P (print E line).
Proof. apply only_emit. Qed.

Lemma only_get_cksum file : only is_scan_action (get_cksum E file).
Proof.
  unfold get_cksum.
  apply only_bind; [apply only_call; exact I | intros [ec out]].
  apply only_bind; [destruct (negb _); apply only_ret | intros _].
  apply only_bind; [apply only_lift_sum | intros cksum_out].
  destruct cksum_out; [apply only_raise | apply only_ret].
Qed.

Lemma only_client_patch_dataset req :
  only is_scan_action (client_patch_dataset E req).
Proof.
  unfold client_patch_dataset.
  apply only_bind; [apply only_get_now | intros t].
  apply only_bind; [apply only_emit; exact I | intros _].
  destruct (env_patch E t req); [apply only_raise | apply only_ret].
Qed.

Lemma only_process_dataset dataset :
  only is_scan_action (process_dataset E get_metadata dataset).
Proof.
  unfold process_dataset.
  apply only_bind.
  { destruct (resolve_location _ _); [apply only_ret | apply only_raise]. }
  intros file_path.
  apply only_bind; [apply only_call; exact I | intros st_size].
  apply only_bind; [apply only_get_cksum | intros cksum].
  apply only_bind; [apply only_call; exact I | intros utcnow].
  apply only_try; [apply only_client_patch_dataset |].
  intros _. apply only_print. exact I.
Qed.

Lemma only_search_failed error : only is_print (search_failed E error).
Proof.
  unfold search_failed.
  apply only_bind; [| intros _; apply only_raise].
  destruct (message error) as [msg |].
  - apply only_bind; [apply only_print; exact I | intros _].
    apply only_bind; [| intros _].
    + destruct (type_ error); [apply only_print; exact I | apply only_ret].
    + destruct (cause error); [apply only_print; exact I | apply only_ret].
  - destruct (content error); [apply only_print; exact I | apply only_raise].
Qed.

Lemma only_open_metadata_db : only is_db_action (open_metadata_db E).
Proof.
  unfold open_metadata_db.
  apply only_bind; [apply only_call; exact I | intros creds].
  apply only_bind.
  { destruct (creds !! "user"); [apply only_ret | apply only_raise]. }
  intros user.
  apply only_bind; [apply only_get_now | intros t].
  apply only_bind; [apply only_emit; exact I | intros _].
  destruct (env_dbOpen E t _ _); [apply only_raise | apply only_ret].
Qed.

Lemma only_client_search req :
  only (fun ev => ev = EvSearch req) (client_search E req).
Proof.
  unfold client_search.
  apply only_bind; [apply only_get_now | intros t].
  apply only_bind; [apply only_emit; reflexivity | intros _].
  destruct (env_search E t req); [apply only_raise | apply only_ret].
Qed.

Lemma only_run : only is_run_action (run E get_metadata).
Proof.
  unfold run.
  apply only_bind.
  { eapply only_mono; [| apply only_open_metadata_db]. intros []; easy. }
  intros _. apply only_bind.
  - apply only_try.
    + eapply only_mono; [| apply only_client_search]. intros ev ->. exact I.
    + intros error. eapply only_mono; [| apply only_search_failed].
      intros []; easy.
  - intros results. apply only_for_each. intros dataset.
    eapply only_mono; [| apply only_process_dataset]. intros []; easy.
Qed.

End Frames.

(** ** C4: LocationResolver *)

(** C4. For every sequence of locations and every requested site, the
    location loop of [run] selects exactly the first location, in the order
    of the sequence, whose [site] is the requested string: the result is
    [Some l] precisely when [l] sits in the sequence behind locations that
    all carry another site, and [None] precisely when no location carries
    the site.  The comparison is equality of the character sequences, so
    sites differing in case do not match; nothing is reordered or weighted. *)
Theorem resolve_location_first_match :
  (forall locs wanted l,
      resolve_location locs wanted = Some l <->
      exists before rest,
        locs = before ++ l :: rest /\
        site l = wanted /\
        Forall (fun x => site x <> wanted) before) /\
  (forall locs wanted,
      resolve_location locs wanted = None <->
      Forall (fun x => site x <> wanted) locs) /\
  resolve_location
    [mkLocation "ncsa" "/a"; mkLocation "NCSA" "/b"; mkLocation "NCSA" "/c"]
    "NCSA" = Some (mkLocation "NCSA" "/b").
Proof.
  split; [exact resolve_location_Some |].
  split; [exact resolve_location_None | reflexivity].
Qed.

(** ** One step of each operation *)

Section Steps.

Variable E : Env.
Variable get_metadata : string -> option (gmap string string).

Lemma call_eq {A} ev (oracle : Z -> Exn + A) w :
  call E ev oracle w =
  (match oracle (now w) with inl e => Raise e | inr a => Ret a end,
   logged E ev w).
Proof. unfold call. unfold_m. destruct (oracle (now w)); reflexivity. Qed.

(** [get_cksum] never returns: what [Popen] raises leaves it, and when the
    subprocess has run, splitting its output does. *)
Lemma get_cksum_eq file w :
  get_cksum E file w =
  (Raise match env_cksum E (now w) file with
         | inl e => e
         | inr _ => TypeError "a bytes-like object is required, not 'str'"
         end,
   logged E (EvCksum file) w).
Proof.
  unfold get_cksum. rewrite bind_eq, call_eq.
  destruct (env_cksum E (now w) file) as [e | [ec out]]; [reflexivity |].
  destruct (negb (ec =? 0)%Z); reflexivity.
Qed.

Lemma client_search_eq req w :
  client_search E req w =
  (match env_search E (now w) req with
   | inl error => Raise (DcExc error)
   | inr results => Ret results
   end, logged E (EvSearch req) w).
Proof.
  unfold client_search. unfold_m.
  destruct (env_search E (now w) req); reflexivity.
Qed.

Lemma client_patch_dataset_eq req w :
  client_patch_dataset E req w =
  (match env_patch E (now w) req with
   | Some error => Raise (DcExc error)
   | None => Ret tt
   end, logged E (EvPatch req) w).
Proof.
  unfold client_patch_dataset. unfold_m.
  destruct (env_patch E (now w) req); reflexivity.
Qed.

(** A dataset whose file can be stat-ed ends in [get_cksum]. *)
Lemma process_dataset_cksum dataset w location st_size :
  resolve_location (locations dataset) WATCH_SITE = Some location ->
  env_stat E (now w) (resource location) = inr st_size ->
  process_dataset E get_metadata dataset w =
  (Raise match env_cksum E (after E (EvStat (resource location)) (now w))
                 (resource location) with
         | inl e => e
         | inr _ => TypeError "a bytes-like object is required, not 'str'"
         end,
   logged E (EvCksum (resource location))
     (logged E (EvStat (resource location)) w)).
Proof.
  intros Hloc Hstat. unfold process_dataset.
  rewrite Hloc. rewrite bind_eq. cbn [mret M_ret ret].
  rewrite bind_eq, call_eq, Hstat.
  rewrite bind_eq, get_cksum_eq. reflexivity.
Qed.

Lemma process_dataset_no_location dataset w :
  resolve_location (locations dataset) WATCH_SITE = None ->
  process_dataset E get_metadata dataset w =
  (Raise (AttributeError "'NoneType' object has no attribute 'resource'"), w).
Proof. intros H. unfold process_dataset. rewrite H. reflexivity. Qed.

Lemma process_dataset_stat_raise dataset w location e :
  resolve_location (locations dataset) WATCH_SITE = Some location ->
  env_stat E (now w) (resource location) = inl e ->
  process_dataset E get_metadata dataset w =
  (Raise e, logged E (EvStat (resource location)) w).
Proof.
  intros Hloc Hstat. unfold process_dataset.
  rewrite Hloc. rewrite bind_eq. cbn [mret M_ret ret].
  rewrite bind_eq, call_eq, Hstat. reflexivity.
Qed.

End Steps.

(** ** Traces *)

Lemma patches_app tr evs : patches (tr ++ evs) = patches tr ++ patches evs.
Proof. apply omap_app. Qed.

Lemma searches_app tr evs : searches (tr ++ evs) = searches tr ++ searches evs.
Proof. apply omap_app. Qed.

Lemma patches_none evs :
  Forall (fun te => patch_of te = None) evs -> patches evs = [].
Proof.
  induction 1 as [| te evs Hte _ IH]; [reflexivity |].
  unfold patches in *. cbn. rewrite Hte. exact IH.
Qed.

Lemma searches_none evs :
  Forall (fun te => search_of te = None) evs -> searches evs = [].
Proof.
  induction 1 as [| te evs Hte _ IH]; [reflexivity |].
  unfold searches in *. cbn. rewrite Hte. exact IH.
Qed.

(** ** C6: the patch payload *)


(** C6. The scenario of the specification: dataset [/d/1] replicated at
    NCSA, a file of 2048 bytes for which [cksum] prints [abc123 2048 ...].
    The location is resolved and the file is stat-ed and handed to [cksum],
    but [get_cksum] then splits the bytes of the output by a text separator
    and raises [TypeError]: the dictionary of lines 98-107 is never built
    and no patch payload reaches the catalog. *)
Theorem scenario_payload_is_never_sent :
  let outcome := run scenario_env Crawler_get_metadata initial_world in
  resolve_location (locations dataset_d1) WATCH_SITE =
    Some (mkLocation "NCSA" "/data/f1.fits") /\
  outcome.1 = Raise (TypeError "a bytes-like object is required, not 'str'") /\
  (trace outcome.2).*2 =
    [EvReadCredentialFile "~/.mysqlAuthLSST";
     EvDbOpen "~/.mysqlAuthLSST" "crawler_fitsTest";
     EvSearch the_search_request;
     EvStat "/data/f1.fits"; EvCksum "/data/f1.fits"] /\
  patches (trace outcome.2) = [].
Proof. vm_compute. repeat split. Qed.

(** ** C9: [get_cksum] and the exit status of [cksum] *)

(** C9. An unreadable file: [cksum] exits with status 1 and prints nothing.
    [get_cksum] ignores the exit status, but it does not return the first
    token of the output: splitting the (empty) bytes of the output by the
    text [" "] raises [TypeError], as it does for every exit status and
    output, and the dataset is not patched. *)
Theorem get_cksum_raises_on_unreadable_file :
  let w1 := logged unreadable_env (EvStat "/data/f1.fits") initial_world in
  let outcome := run unreadable_env Crawler_get_metadata initial_world in
  env_cksum unreadable_env (now w1) "/data/f1.fits" = inr (1, EmptyString) /\
  get_cksum unreadable_env "/data/f1.fits" w1 =
    (Raise (TypeError "a bytes-like object is required, not 'str'"),
     logged unreadable_env (EvCksum "/data/f1.fits") w1) /\
  outcome.1 = Raise (TypeError "a bytes-like object is required, not 'str'") /\
  patches (trace outcome.2) = [].
Proof. vm_compute. repeat split. Qed.

(** ** The batch loop *)

Lemma for_each_cons {A} (body : A -> M unit) item rest w :
  for_each (item :: rest) body w =
  match body item w with
  | (Ret _, w') => for_each rest body w'
  | (Raise e, w') => (Raise e, w')
  end.
Proof. reflexivity. Qed.


(** ** C3: a dataset without a location at the watch site *)

(** C3. A batch whose first dataset has no location at the watch site:
    the location loop leaves [check_location] at [None] without raising, the
    attribute access on it raises [AttributeError], nothing reports the
    dataset, no patch call is made for it, and the exception leaves [run],
    [_run] and the constructor: the dataset after it is never looked at and
    no further cycle is scheduled. *)
Theorem missing_location_aborts_run :
  let outcome :=
    main missing_location_env Crawler_get_metadata 10 initial_world in
  resolve_location (locations dataset_other) WATCH_SITE = None /\
  outcome.1 = Some (Raise (AttributeError
                "'NoneType' object has no attribute 'resource'")) /\
  stat_files (trace outcome.2) = [] /\
  patches (trace outcome.2) = [] /\
  printed (trace outcome.2) = [] /\
  queue outcome.2 = [].
Proof. vm_compute. repeat split. Qed.

(** ** C2: failures inside a batch *)

(** C2. The isolation scenario: three datasets replicated at NCSA, the file
    of the second missing.  The first dataset already fails, with the
    [TypeError] of [get_cksum]; nothing catches or reports it, and the run
    ends there: none of the three is patched and the second and third are
    never looked at.  When the dataset with the missing file comes first,
    the [OSError] of [os.stat] ends the run in the same way. *)
Theorem first_failure_blocks_the_batch :
  let outcome := run isolation_env Crawler_get_metadata initial_world in
  let outcome' := run missing_file_env Crawler_get_metadata initial_world in
  outcome.1 = Raise (TypeError "a bytes-like object is required, not 'str'") /\
  stat_files (trace outcome.2) = ["/data/f1.fits"] /\
  patches (trace outcome.2) = [] /\
  printed (trace outcome.2) = [] /\
  outcome'.1 = Raise (OSError "/data/f2.fits") /\
  stat_files (trace outcome'.2) = ["/data/f2.fits"] /\
  patches (trace outcome'.2) = [] /\
  printed (trace outcome'.2) = [].
Proof. vm_compute. repeat split. Qed.

(** ** The scan cycle and the scheduler *)

Lemma with_queue_id w : with_queue (queue w) w = w.
Proof. destruct w. reflexivity. Qed.

Lemma printed_app tr evs : printed (tr ++ evs) = printed tr ++ printed evs.
Proof. apply omap_app. Qed.

Lemma search_failed_outcome E error w :
  is_Some (message error) \/ is_Some (content error) ->
  (search_failed E error w).1 = Raise (SystemExit 1) /\
  printed (trace (search_failed E error w).2) =
    printed (trace w) ++ report_lines error /\
  report_lines error <> [].
Proof.
  intros Hattr. unfold search_failed, report_lines, print.
  destruct (message error) as [msg |].
  - destruct (type_ error) as [t |], (cause error) as [c |];
      unfold_m; rewrite !printed_app; cbn; rewrite <- ?app_assoc;
      repeat split; discriminate.
  - destruct (content error) as [c |].
    + unfold_m. rewrite !printed_app. cbn. repeat split. discriminate.
    + destruct Hattr as [[? [=]] | [? [=]]].
Qed.

Lemma search_failed_spec E error w :
  is_Some (message error) \/ is_Some (content error) ->
  exists w' evs,
    search_failed E error w = (Raise (SystemExit 1), w') /\
    trace w' = trace w ++ evs /\
    Forall (fun te => is_print te.2) evs /\
    printed evs = report_lines error /\
    report_lines error <> [] /\
    queue w' = queue w.
Proof.
  intros Hattr.
  destruct (search_failed_outcome E error w Hattr) as (Hres & Hprinted & Hne).
  destruct (only_search_failed E error w) as (evs & Ht & Hall & Hq & _).
  destruct (search_failed E error w) as [r w'] eqn:Hrun. cbn in *. subst r.
  exists w', evs. repeat split; try assumption.
  rewrite Ht, printed_app in Hprinted.
  apply app_inv_head in Hprinted. exact Hprinted.
Qed.

Lemma run_eq E get_metadata w :
  run E get_metadata w =
  match open_metadata_db E w with
  | (Ret _, w0) =>
      let w1 := logged E (EvSearch the_search_request) w0 in
      match env_search E (now w0) the_search_request with
      | inl error =>
          match search_failed E error w1 with
          | (Ret results, w2) =>
              for_each results (process_dataset E get_metadata) w2
          | (Raise e, w2) => (Raise e, w2)
          end
      | inr results => for_each results (process_dataset E get_metadata) w1
      end
  | (Raise e, w0) => (Raise e, w0)
  end.
Proof.
  unfold run. rewrite bind_eq.
  destruct (open_metadata_db E w) as [[[] | e] w0]; [| reflexivity].
  rewrite bind_eq. unfold try_DcException. rewrite client_search_eq.
  destruct (env_search E (now w0) the_search_request); reflexivity.
Qed.

Lemma _run_eq E get_metadata w :
  _run E get_metadata w =
  match run E get_metadata w with
  | (Ret _, w1) =>
      (Ret tt,
       with_queue
         (heappush (mkSchedEvent (now w1 + RERUN_SECONDS) 1 Act_run) (queue w1))
         w1)
  | (Raise e, w1) => (Raise e, w1)
  end.
Proof.
  unfold _run. rewrite bind_eq.
  destruct (run E get_metadata w) as [[[] | e] w1]; reflexivity.
Qed.

Lemma _run_raise E get_metadata w e w1 :
  run E get_metadata w = (Raise e, w1) ->
  _run E get_metadata w = (Raise e, w1).
Proof. intros H. rewrite _run_eq, H. reflexivity. Qed.

(** One iteration of the scheduler loop on a due event. *)
Lemma sched_run_due E get_metadata fuel event rest w :
  queue w = event :: rest ->
  ev_time event <= now w ->
  sched_run E get_metadata (S fuel) w =
  match _run E get_metadata (with_queue rest w) with
  | (Ret _, w1) => sched_run E get_metadata fuel (sleep E 0 w1).2
  | (Raise e, w1) => (Some (Raise e), w1)
  end.
Proof.
  intros Hq Hdue. destruct w as [t tr q]. cbn in Hq, Hdue. subst q.
  cbn [sched_run queue now].
  destruct (Z.ltb_spec t (ev_time event)) as [Hlt | _]; [lia |].
  destruct (ev_action event).
  rewrite bind_eq. cbn [set_queue now trace queue perform].
  rewrite bind_eq. cbn [with_queue now trace].
  destruct (_run E get_metadata _) as [[[] | e] w1]; reflexivity.
Qed.

(** ... and on an event that is not due yet. *)
Lemma sched_run_wait E get_metadata fuel event rest w :
  queue w = event :: rest ->
  now w < ev_time event ->
  sched_run E get_metadata (S fuel) w =
  sched_run E get_metadata fuel (sleep E (ev_time event - now w) w).2.
Proof.
  intros Hq Hwait. destruct w as [t tr q]. cbn in Hq, Hwait. subst q.
  cbn [sched_run queue now].
  destruct (Z.ltb_spec t (ev_time event)) as [_ | Hge]; [reflexivity | lia].
Qed.

Lemma sched_run_empty E get_metadata fuel w :
  queue w = [] -> sched_run E get_metadata fuel w = (Some (Ret tt), w).
Proof. intros Hq. destruct fuel; cbn; rewrite Hq; reflexivity. Qed.

(** An exception that leaves [_run] leaves the scheduler loop. *)
Lemma sched_run_raise E get_metadata fuel event w e w1 :
  ev_time event <= now w ->
  _run E get_metadata w = (Raise e, w1) ->
  sched_run E get_metadata (S fuel) (with_queue (event :: queue w) w) =
  (Some (Raise e), w1).
Proof.
  intros Hdue Hrun.
  rewrite (sched_run_due E get_metadata fuel event (queue w)
             (with_queue (event :: queue w) w) eq_refl Hdue).
  change (with_queue (queue w) (with_queue (event :: queue w) w))
    with (with_queue (queue w) w).
  rewrite with_queue_id, Hrun. reflexivity.
Qed.

(** ... and the constructor, hence [main]. *)
Lemma main_raise E get_metadata fuel w e w1 :
  queue w = [] ->
  _run E get_metadata w = (Raise e, w1) ->
  main E get_metadata fuel w = (Some (Raise e), w1).
Proof.
  intros Hq Hrun. unfold main, Crawler_init. rewrite bind_eq.
  destruct w as [t tr q]. cbn in Hq. subst q.
  cbn [set_queue now trace]. rewrite Hrun. reflexivity.
Qed.

Lemma open_metadata_db_frame E w :
  searches (trace (open_metadata_db E w).2) = searches (trace w) /\
  patches (trace (open_metadata_db E w).2) = patches (trace w) /\
  queue (open_metadata_db E w).2 = queue w /\
  now w <= now (open_metadata_db E w).2.
Proof.
  destruct (only_open_metadata_db E w) as (evs & Ht & Hall & Hq & Hn).
  rewrite Ht, searches_app, patches_app.
  rewrite (searches_none evs), (patches_none evs).
  - rewrite !app_nil_r. auto.
  - eapply Forall_impl; [exact Hall |]. intros [t []]; easy.
  - eapply Forall_impl; [exact Hall |]. intros [t []]; easy.
Qed.

(** ** C1: a failing catalog search *)

(** C1, as stated, fails: when the catalog cannot be reached the process
    ends with [SystemExit(1)] in the very first cycle, with nothing left in
    the scheduler queue. *)
Lemma search_failure_ends_the_daemon :
  let outcome := main unreachable_env Crawler_get_metadata 10 initial_world in
  outcome.1 = Some (Raise (SystemExit 1)) /\
  queue outcome.2 = [] /\
  length (searches (trace outcome.2)) = 1%nat.
Proof. vm_compute. repeat split. Qed.

(** C1, amended. For every scan cycle, if the catalog search raises a
    [DcException] (one with a [message] or a [content] to print), the cycle
    is abandoned with no partial processing (nothing but the report lines
    follows the search, no patch call is made), the failure is printed, and
    the handler calls [sys.exit(1)]: the [SystemExit] leaves [run] and
    [_run], so the next cycle is not scheduled, and it leaves the scheduler
    loop or the constructor that started the cycle. *)
Theorem search_failure_exits E get_metadata w w0 error :
  open_metadata_db E w = (Ret tt, w0) ->
  env_search E (now w0) the_search_request = inl error ->
  is_Some (message error) \/ is_Some (content error) ->
  exists w1 evs,
    run E get_metadata w = (Raise (SystemExit 1), w1) /\
    _run E get_metadata w = (Raise (SystemExit 1), w1) /\
    trace w1 = trace w0 ++ (now w0, EvSearch the_search_request) :: evs /\
    Forall (fun te => is_print te.2) evs /\
    printed evs = report_lines error /\
    report_lines error <> [] /\
    patches (trace w1) = patches (trace w) /\
    queue w1 = queue w /\
    (forall fuel event,
        ev_time event <= now w ->
        sched_run E get_metadata (S fuel) (with_queue (event :: queue w) w) =
        (Some (Raise (SystemExit 1)), w1)) /\
    (forall fuel,
        queue w = [] ->
        main E get_metadata fuel w = (Some (Raise (SystemExit 1)), w1)).
Proof.
  intros Hopen Hsearch Hattr.
  destruct (search_failed_spec E error
              (logged E (EvSearch the_search_request) w0) Hattr)
    as (w1 & evs & Hfail & Ht & Hall & Hprinted & Hne & Hq).
  assert (run E get_metadata w = (Raise (SystemExit 1), w1)) as Hrun.
  { rewrite run_eq, Hopen. cbn zeta. rewrite Hsearch, Hfail. reflexivity. }
  pose proof (_run_raise E get_metadata w _ _ Hrun) as H_run.
  pose proof (open_metadata_db_frame E w) as (_ & Hp0 & Hq0 & _).
  rewrite Hopen in Hp0, Hq0. cbn in Hp0, Hq0.
  exists w1, evs. repeat split; try assumption.
  - rewrite Ht. cbn [logged trace]. rewrite <- app_assoc. reflexivity.
  - rewrite Ht. cbn [logged trace]. rewrite !patches_app, Hp0.
    rewrite (patches_none evs).
    + cbn. rewrite !app_nil_r. reflexivity.
    + eapply Forall_impl; [exact Hall |]. intros [t []]; easy.
  - rewrite Hq. cbn [logged queue]. exact Hq0.
  - intros fuel event Hdue.
    apply sched_run_raise; assumption.
  - intros fuel Hempty. apply main_raise; assumption.
Qed.

(** The catalog refuses the connection in a cycle started from the initial
    world. *)
Lemma search_failure_exits_unreachable :
  exists w1 evs,
    run unreachable_env Crawler_get_metadata initial_world =
      (Raise (SystemExit 1), w1) /\
    _run unreachable_env Crawler_get_metadata initial_world =
      (Raise (SystemExit 1), w1) /\
    trace w1 =
      trace (open_metadata_db unreachable_env initial_world).2 ++
      (0, EvSearch (the_search_request)) :: evs /\
    Forall (fun te => is_print te.2) evs /\
    printed evs = report_lines connection_refused /\
    report_lines connection_refused <> [] /\
    patches (trace w1) = patches (trace initial_world) /\
    queue w1 = queue initial_world /\
    (forall fuel event,
        ev_time event <= now initial_world ->
        sched_run unreachable_env Crawler_get_metadata (S fuel)
          (with_queue (event :: queue initial_world) initial_world) =
        (Some (Raise (SystemExit 1)), w1)) /\
    (forall fuel,
        queue initial_world = [] ->
        main unreachable_env Crawler_get_metadata fuel initial_world =
        (Some (Raise (SystemExit 1)), w1)).
Proof.
  apply (search_failure_exits unreachable_env Crawler_get_metadata
           initial_world
           (open_metadata_db unreachable_env initial_world).2
           connection_refused).
  - reflexivity.
  - reflexivity.
  - left. exists "Connection refused". reflexivity.
Defined.

Lemma for_each_process_frame E get_metadata batch w :
  searches (trace (for_each batch (process_dataset E get_metadata) w).2) =
    searches (trace w).
Proof.
  destruct (only_for_each is_scan_action (process_dataset E get_metadata)
              batch (only_process_dataset E get_metadata) w)
    as (evs & Ht & Hall & _).
  rewrite Ht, searches_app, (searches_none evs); [apply app_nil_r |].
  eapply Forall_impl; [exact Hall |]. intros [t []]; easy.
Qed.

(** The searches of one cycle. *)
Lemma run_searches E get_metadata w :
  searches (trace (run E get_metadata w).2) =
    searches (trace w) ++
    match (open_metadata_db E w).1 with
    | Ret _ => [the_search_request]
    | Raise _ => []
    end.
Proof.
  rewrite run_eq.
  pose proof (open_metadata_db_frame E w) as (Hs0 & _).
  destruct (open_metadata_db E w) as [[[] | e] w0]; cbn in Hs0 |- *.
  - destruct (env_search E (now w0) the_search_request) as [error | results].
    + destruct (only_search_failed E error
                  (logged E (EvSearch the_search_request) w0))
        as (evs & Ht & Hall & _).
      assert (searches evs = []) as Hevs.
      { apply searches_none. eapply Forall_impl; [exact Hall |].
        intros [t []]; easy. }
      destruct (search_failed E error _) as [[results | e] w2]; cbn in Ht.
      * rewrite for_each_process_frame, Ht, searches_app, Hevs.
        cbn [logged trace]. rewrite searches_app, Hs0, app_nil_r. reflexivity.
      * cbn. rewrite Ht, searches_app, Hevs.
        cbn [logged trace]. rewrite searches_app, Hs0, app_nil_r. reflexivity.
    + rewrite for_each_process_frame. cbn [logged trace].
      rewrite searches_app, Hs0. reflexivity.
  - rewrite Hs0, app_nil_r. reflexivity.
Qed.

(** What [_run] adds to [run]. *)
Lemma next_run_after E get_metadata w :
  match run E get_metadata w with
  | (Ret _, w1) =>
      _run E get_metadata w =
      (Ret tt,
       with_queue
         (heappush (mkSchedEvent (now w1 + RERUN_SECONDS) 1 Act_run) (queue w))
         w1)
  | (Raise e, w1) => _run E get_metadata w = (Raise e, w1)
  end.
Proof.
  rewrite _run_eq.
  destruct (only_run E get_metadata w) as (evs & _ & _ & Hq & _).
  destruct (run E get_metadata w) as [[[] | e] w1]; cbn in Hq.
  - rewrite Hq. reflexivity.
  - reflexivity.
Qed.

(** ** C5: the catalog search *)

(** C5, as stated, fails: the search of a cycle is not scoped to the watch
    site; it asks for the locations of all sites. *)
Lemma search_is_not_scoped_to_the_watch_site :
  exists req,
    searches (trace (run scenario_env Crawler_get_metadata initial_world).2) =
      [req] /\
    sr_site req = "all" /\
    sr_site req <> WATCH_SITE.
Proof.
  exists (the_search_request). repeat split. discriminate.
Qed.

(** C5, amended. Every fetch phase (every cycle that gets past the opening
    of the metadata database) issues exactly one catalog search; its query is
    the status predicate [scanStatus = 'UNSCANNED'], its folder the watch
    folder, its version [current], its site [all] (the watch site is applied
    later, to the locations of each dataset), and its result count is bounded
    by [max_num] 1000.  A cycle that fails before the fetch phase issues no
    search. *)
Theorem fetch_issues_one_search E get_metadata w :
  searches (trace (run E get_metadata w).2) =
    searches (trace w) ++
    match (open_metadata_db E w).1 with
    | Ret _ => [the_search_request]
    | Raise _ => []
    end /\
  sr_path the_search_request = WATCH_FOLDER /\
  sr_version the_search_request = "current" /\
  sr_site the_search_request = "all" /\
  sr_query the_search_request = "scanStatus = 'UNSCANNED'" /\
  sr_max_num the_search_request = 1000.
Proof.
  split; [apply run_searches | repeat split].
Qed.

(** ** C7: rescheduling *)

(** C7, as stated, fails: when the search takes three seconds (and finds
    nothing to scan), the cycle that starts at 0 schedules its successor for
    8, not 5, and the cycles of the daemon start at 0, 8 and 16. *)
Lemma rerun_interval_counts_from_completion :
  ev_time <$> queue (_run slow_env Crawler_get_metadata initial_world).2 = [8]
  /\ now initial_world + RERUN_SECONDS = 5
  /\ search_times
       (trace (main slow_env Crawler_get_metadata 4 initial_world).2) =
     [0; 8; 16].
Proof. vm_compute. repeat split. Qed.

(** C7, amended. After every scan cycle that returns normally, the next
    cycle is scheduled 5 seconds after the value of the clock at the moment
    the cycle completed (when [sched.enter] is called), which is never
    earlier than 5 seconds after its start; the queue is otherwise left as
    it was.  A cycle that raises schedules nothing. *)
Theorem next_cycle_is_scheduled_on_completion E get_metadata w :
  RERUN_SECONDS = 5 /\
  match run E get_metadata w with
  | (Ret _, w1) =>
      _run E get_metadata w =
        (Ret tt,
         with_queue
           (heappush (mkSchedEvent (now w1 + RERUN_SECONDS) 1 Act_run) (queue w))
           w1) /\
      now w + RERUN_SECONDS <= now w1 + RERUN_SECONDS /\
      (queue w = [] ->
       queue (_run E get_metadata w).2 =
         [mkSchedEvent (now w1 + RERUN_SECONDS) 1 Act_run])
  | (Raise e, w1) =>
      _run E get_metadata w = (Raise e, w1) /\ queue w1 = queue w
  end.
Proof.
  split; [reflexivity |].
  rewrite _run_eq.
  destruct (only_run E get_metadata w) as (evs & _ & _ & Hq & Hn).
  destruct (run E get_metadata w) as [[[] | e] w1]; cbn in Hq, Hn.
  - rewrite Hq. repeat split; [lia |].
    intros Hempty. rewrite Hempty. reflexivity.
  - auto.
Qed.

(** ** C8: a file that cannot be stat-ed or read *)




(** ** C10: the constructor and [start] *)

(** C10. The first scan cycle runs inside the constructor, before [start]
    is called: constructing the crawler performs one full [run] on a fresh
    scheduler (the search of the fetch phase included) and, when that run
    returns, leaves exactly one event in the queue, [_run] due
    [RERUN_SECONDS] later; an exception of that first run leaves the
    constructor.  [start] itself runs no cycle: on an empty queue it returns
    at once, otherwise it sleeps until the first queued event is due and
    then dispatches it.  [main] is the constructor followed by [start]. *)
Theorem first_cycle_runs_in_the_constructor E get_metadata w :
  match run E get_metadata (with_queue [] w) with
  | (Ret _, w1) =>
      Crawler_init E get_metadata w =
      (Ret tt,
       with_queue [mkSchedEvent (now w1 + RERUN_SECONDS) 1 Act_run] w1)
  | (Raise e, w1) => Crawler_init E get_metadata w = (Raise e, w1)
  end /\
  trace (Crawler_init E get_metadata w).2 =
    trace (run E get_metadata (with_queue [] w)).2 /\
  searches (trace (Crawler_init E get_metadata w).2) =
    searches (trace w) ++
    match (open_metadata_db E (with_queue [] w)).1 with
    | Ret _ => [the_search_request]
    | Raise _ => []
    end /\
  (forall fuel w',
      queue w' = [] -> start E get_metadata fuel w' = (Some (Ret tt), w')) /\
  (forall fuel w' event rest,
      queue w' = event :: rest ->
      now w' < ev_time event ->
      start E get_metadata (S fuel) w' =
      start E get_metadata fuel (sleep E (ev_time event - now w') w').2) /\
  (forall fuel w' event rest,
      queue w' = event :: rest ->
      ev_time event <= now w' ->
      start E get_metadata (S fuel) w' =
      match _run E get_metadata (with_queue rest w') with
      | (Ret _, w1) => start E get_metadata fuel (sleep E 0 w1).2
      | (Raise e, w1) => (Some (Raise e), w1)
      end) /\
  (forall fuel,
      main E get_metadata fuel w =
      match Crawler_init E get_metadata w with
      | (Ret _, w') => start E get_metadata fuel w'
      | (Raise e, w') => (Some (Raise e), w')
      end).
Proof.
  assert (Crawler_init E get_metadata w =
          _run E get_metadata (with_queue [] w)) as Hinit by reflexivity.
  pose proof (next_run_after E get_metadata (with_queue [] w)) as Hnext.
  split; [| split; [| split]].
  - rewrite Hinit.
    destruct (run E get_metadata (with_queue [] w)) as [[[] | e] w1];
      exact Hnext.
  - rewrite Hinit.
    destruct (run E get_metadata (with_queue [] w)) as [[[] | e] w1];
      rewrite Hnext; reflexivity.
  - rewrite Hinit.
    pose proof (run_searches E get_metadata (with_queue [] w)) as Hs.
    destruct (run E get_metadata (with_queue [] w)) as [[[] | e] w1];
      rewrite Hnext; exact Hs.
  - split; [intros fuel w'; apply sched_run_empty |].
    split; [intros fuel w' event rest; apply sched_run_wait |].
    split; [intros fuel w' event rest; apply sched_run_due |].
    reflexivity.
Qed.

(** With nothing to scan, the constructor alone searches the catalog and
    queues the next cycle for time 5. *)
Example constructor_runs_the_first_cycle :
  let outcome := Crawler_init idle_env Crawler_get_metadata initial_world in
  outcome.1 = Ret tt /\
  searches (trace outcome.2) = [the_search_request] /\
  queue outcome.2 = [mkSchedEvent 5 1 Act_run].
Proof. vm_compute. repeat split. Qed.

(** * Further properties of the crawler *)

(** ** [get_cksum] *)

(** X1. [get_cksum] never returns a checksum.  When the [cksum]
    subprocess cannot be started, what [Popen] raised leaves it; when the
    subprocess has run, whatever its exit status and its output, splitting
    the bytes of the output by the text [" "] raises [TypeError].  Nothing
    but the one subprocess call is performed. *)
Theorem get_cksum_always_raises E file w :
  exists e,
    get_cksum E file w = (Raise e, logged E (EvCksum file) w) /\
    match env_cksum E (now w) file with
    | inl e' => e = e'
    | inr _ => e = TypeError "a bytes-like object is required, not 'str'"
    end.
Proof.
  eexists. split; [apply get_cksum_eq |].
  destruct (env_cksum E (now w) file); reflexivity.
Qed.

(** ** The credential file and the metadata database *)

Lemma open_metadata_db_eq E w :
  open_metadata_db E w =
  let file := "~/.mysqlAuthLSST" in
  let w1 := logged E (EvReadCredentialFile file) w in
  match env_readCredentialFile E (now w) file with
  | inl e => (Raise e, w1)
  | inr creds =>
      match creds !! "user" with
      | None => (Raise (KeyError "user"), w1)
      | Some user =>
          let db := user +:+ "_fitsTest" in
          (match env_dbOpen E (now w1) file db with
           | Some e => Raise e
           | None => Ret tt
           end, logged E (EvDbOpen file db) w1)
      end
  end.
Proof.
  unfold open_metadata_db. rewrite bind_eq, call_eq. cbn zeta.
  destruct (env_readCredentialFile E (now w) _) as [e | creds]; [reflexivity |].
  rewrite bind_eq.
  destruct (creds !! "user") as [user |]; [| reflexivity].
  unfold_m. destruct (env_dbOpen E _ _ _); reflexivity.
Qed.

(** X2. When the credential file holds no [user] entry, the cycle ends with
    [KeyError('user')] right after reading the file: the database is not
    opened, the catalog is not searched, nothing is patched, and [_run]
    schedules no further cycle. *)
Theorem missing_user_ends_the_cycle E get_metadata w creds :
  env_readCredentialFile E (now w) "~/.mysqlAuthLSST" = inr creds ->
  creds !! "user" = None ->
  let w1 := logged E (EvReadCredentialFile "~/.mysqlAuthLSST") w in
  run E get_metadata w = (Raise (KeyError "user"), w1) /\
  _run E get_metadata w = (Raise (KeyError "user"), w1) /\
  trace w1 = trace w ++ [(now w, EvReadCredentialFile "~/.mysqlAuthLSST")] /\
  queue w1 = queue w.
Proof.
  intros Hcreds Huser w1.
  assert (run E get_metadata w = (Raise (KeyError "user"), w1)) as Hrun.
  { rewrite run_eq, open_metadata_db_eq. cbn zeta.
    rewrite Hcreds, Huser. reflexivity. }
  split; [exact Hrun |].
  split; [apply _run_raise; exact Hrun |].
  split; reflexivity.
Qed.

(** Credentials without a user, in the initial world. *)
Lemma missing_user_ends_the_cycle_no_user :
  let E := mkEnv (fun _ _ => inr ∅) (fun _ _ _ => None) (fun _ _ => inr [])
             (fun _ _ => inr 0%N) (fun _ _ => inr (0, EmptyString))
             (fun _ => mkDateTime 2016 3 1 12 30 5) (fun _ _ => None)
             (fun _ _ => 0%N) in
  let w1 := logged E (EvReadCredentialFile "~/.mysqlAuthLSST") initial_world in
  run E Crawler_get_metadata initial_world = (Raise (KeyError "user"), w1) /\
  _run E Crawler_get_metadata initial_world = (Raise (KeyError "user"), w1) /\
  trace w1 = trace initial_world ++ [(0, EvReadCredentialFile "~/.mysqlAuthLSST")]
  /\ queue w1 = queue initial_world.
Proof.
  apply (missing_user_ends_the_cycle
           (mkEnv (fun _ _ => inr ∅) (fun _ _ _ => None) (fun _ _ => inr [])
              (fun _ _ => inr 0%N) (fun _ _ => inr (0, EmptyString))
              (fun _ => mkDateTime 2016 3 1 12 30 5) (fun _ _ => None)
              (fun _ _ => 0%N))
           Crawler_get_metadata initial_world ∅);
    reflexivity.
Defined.

(** The handler of a failed search never returns. *)
Lemma search_failed_raises E error w :
  exists e w',
    search_failed E error w = (Raise e, w') /\
    (e = SystemExit 1 \/
     (e = AttributeError "'DcException' object has no attribute 'content'" /\
      message error = None /\ content error = None /\ w' = w)).
Proof.
  unfold search_failed, print.
  destruct (message error) as [msg |]; [| destruct (content error) as [c |]].
  - destruct (type_ error), (cause error); unfold_m; eauto.
  - unfold_m; eauto.
  - unfold_m. eexists. eexists. split; [reflexivity |]. right. auto.
Qed.

(** X3. Every cycle opens the metadata database anew, under the name made
    of the [user] of the credential file followed by [_fitsTest], before it
    searches the catalog; when opening fails, the error leaves the cycle
    and the catalog is not contacted. *)
Theorem database_is_opened_before_the_search E get_metadata w creds user :
  env_readCredentialFile E (now w) "~/.mysqlAuthLSST" = inr creds ->
  creds !! "user" = Some user ->
  let file := "~/.mysqlAuthLSST" in
  let w1 := logged E (EvReadCredentialFile file) w in
  let w2 := logged E (EvDbOpen file (user +:+ "_fitsTest")) w1 in
  match env_dbOpen E (now w1) file (user +:+ "_fitsTest") with
  | Some e =>
      run E get_metadata w = (Raise e, w2) /\
      searches (trace w2) = searches (trace w)
  | None =>
      exists evs,
        trace (run E get_metadata w).2 =
          trace w2 ++ (now w2, EvSearch the_search_request) :: evs
  end.
Proof.
  intros Hcreds Huser file w1 w2.
  pose proof (open_metadata_db_eq E w) as Hopen. cbn zeta in Hopen.
  rewrite Hcreds, Huser in Hopen. fold file in Hopen.
  fold w1 in Hopen. fold w2 in Hopen.
  destruct (env_dbOpen E (now w1) file (user +:+ "_fitsTest")) as [e |].
  - split.
    + rewrite run_eq, Hopen. reflexivity.
    + subst w2 w1. cbn [logged trace]. rewrite !searches_app. cbn.
      rewrite !app_nil_r. reflexivity.
  - rewrite run_eq, Hopen. cbn zeta.
    destruct (env_search E (now w2) the_search_request) as [error | results].
    + destruct (only_search_failed E error
                  (logged E (EvSearch the_search_request) w2))
        as (evs & Ht & _).
      destruct (search_failed_raises E error
                  (logged E (EvSearch the_search_request) w2))
        as (e & w3 & Hfail & _).
      rewrite Hfail in Ht |- *. cbn in Ht |- *.
      exists evs. rewrite Ht. rewrite <- app_assoc. reflexivity.
    + destruct (only_for_each is_scan_action
                  (process_dataset E get_metadata) results
                  (only_process_dataset E get_metadata)
                  (logged E (EvSearch the_search_request) w2))
        as (evs & Ht & _).
      exists evs. rewrite Ht. cbn [logged trace].
      rewrite <- app_assoc. reflexivity.
Qed.

(** In the scenario the credential file names [crawler]: the database
    [crawler_fitsTest] is opened, then the catalog is searched. *)
Lemma database_is_opened_before_the_search_scenario :
  let w1 :=
    logged scenario_env (EvReadCredentialFile "~/.mysqlAuthLSST")
      initial_world in
  let w2 :=
    logged scenario_env (EvDbOpen "~/.mysqlAuthLSST" "crawler_fitsTest") w1 in
  exists evs,
    trace (run scenario_env Crawler_get_metadata initial_world).2 =
      trace w2 ++ (now w2, EvSearch the_search_request) :: evs.
Proof.
  apply (database_is_opened_before_the_search scenario_env
           Crawler_get_metadata initial_world {[ "user" := "crawler" ]}
           "crawler");
    reflexivity.
Defined.

(** ** The handler of a failed search *)

(** X4. When the catalog search raises a [DcException] that has neither a
    [message] nor a [content] attribute, the handler itself fails: reading
    [error.content] raises [AttributeError] before [sys.exit(1)] is reached,
    nothing is printed, and it is the [AttributeError] that leaves [run]
    and [_run]; no dataset is processed and no further cycle is scheduled. *)
Theorem search_failure_without_attributes E get_metadata w w0 error :
  open_metadata_db E w = (Ret tt, w0) ->
  env_search E (now w0) the_search_request = inl error ->
  message error = None ->
  content error = None ->
  let w1 := logged E (EvSearch the_search_request) w0 in
  let e := AttributeError "'DcException' object has no attribute 'content'" in
  run E get_metadata w = (Raise e, w1) /\
  _run E get_metadata w = (Raise e, w1) /\
  printed (trace w1) = printed (trace w) /\
  patches (trace w1) = patches (trace w) /\
  queue w1 = queue w.
Proof.
  intros Hopen Hsearch Hmsg Hcontent w1 e.
  assert (run E get_metadata w = (Raise e, w1)) as Hrun.
  { rewrite run_eq, Hopen. cbn zeta. rewrite Hsearch.
    unfold search_failed. rewrite Hmsg, Hcontent. reflexivity. }
  destruct (only_open_metadata_db E w) as (evs & Ht & Hall & Hq & _).
  rewrite Hopen in Ht, Hq. cbn in Ht, Hq.
  split; [exact Hrun |].
  split; [apply _run_raise; exact Hrun |].
  subst w1. cbn [logged trace queue].
  rewrite Ht, !printed_app, !patches_app. cbn.
  assert (printed evs = [] /\ patches evs = []) as [-> ->].
  { clear Ht. induction Hall as [| [t ev] evs Hev _ [IH1 IH2]];
      [split; reflexivity |].
    destruct ev; try contradiction; split; assumption. }
  rewrite !app_nil_r. auto.
Qed.

(** A catalog error that carries only a type. *)
Lemma search_failure_without_attributes_bare :
  let E := static_env (inl (mkDcException None (Some "Timeout") None None))
             stat_2048 cksum_abc123 patch_accepted instantaneous in
  let w0 := (open_metadata_db E initial_world).2 in
  let w1 := logged E (EvSearch the_search_request) w0 in
  let e := AttributeError "'DcException' object has no attribute 'content'" in
  run E Crawler_get_metadata initial_world = (Raise e, w1) /\
  _run E Crawler_get_metadata initial_world = (Raise e, w1) /\
  printed (trace w1) = printed (trace initial_world) /\
  patches (trace w1) = patches (trace initial_world) /\
  queue w1 = queue initial_world.
Proof.
  apply (search_failure_without_attributes
           (static_env (inl (mkDcException None (Some "Timeout") None None))
              stat_2048 cksum_abc123 patch_accepted instantaneous)
           Crawler_get_metadata initial_world
           (open_metadata_db
              (static_env (inl (mkDcException None (Some "Timeout") None None))
                 stat_2048 cksum_abc123 patch_accepted instantaneous)
              initial_world).2
           (mkDcException None (Some "Timeout") None None));
    reflexivity.
Defined.

(** ** Whole batches *)

(** X5. When the search finds nothing, the cycle touches no file and makes
    no patch call: it returns normally right after the search, and [_run]
    schedules the next cycle [RERUN_SECONDS] after that moment. *)
Theorem empty_batch_is_a_quiet_cycle E get_metadata w w0 :
  open_metadata_db E w = (Ret tt, w0) ->
  env_search E (now w0) the_search_request = inr [] ->
  let w1 := logged E (EvSearch the_search_request) w0 in
  run E get_metadata w = (Ret tt, w1) /\
  _run E get_metadata w =
    (Ret tt,
     with_queue
       (heappush (mkSchedEvent (now w1 + RERUN_SECONDS) 1 Act_run) (queue w))
       w1) /\
  patches (trace w1) = patches (trace w) /\
  filter (fun te => is_file_action te.2) (trace w1) =
    filter (fun te => is_file_action te.2) (trace w).
Proof.
  intros Hopen Hsearch w1.
  assert (run E get_metadata w = (Ret tt, w1)) as Hrun.
  { rewrite run_eq, Hopen. cbn zeta. rewrite Hsearch. reflexivity. }
  destruct (only_open_metadata_db E w) as (evs & Ht & Hall & Hq & _).
  rewrite Hopen in Ht, Hq. cbn in Ht, Hq.
  split; [exact Hrun |].
  split.
  { rewrite _run_eq, Hrun. subst w1. cbn [logged queue]. rewrite Hq.
    reflexivity. }
  subst w1. cbn [logged trace].
  rewrite Ht, !patches_app, !filter_app. cbn.
  assert (patches evs = [] /\
          filter (fun te : Z * Event => is_file_action te.2) evs = [])
    as [-> ->].
  { clear Ht. induction Hall as [| [t ev] evs Hev _ [IH1 IH2]];
      [split; reflexivity |].
    destruct ev; try contradiction; split; assumption. }
  rewrite !app_nil_r. auto.
Qed.

(** An empty catalog. *)
Lemma empty_batch_is_a_quiet_cycle_idle :
  let E := static_env (inr []) stat_2048 cksum_abc123 patch_accepted
             instantaneous in
  let w0 := (open_metadata_db E initial_world).2 in
  let w1 := logged E (EvSearch the_search_request) w0 in
  run E Crawler_get_metadata initial_world = (Ret tt, w1) /\
  _run E Crawler_get_metadata initial_world =
    (Ret tt,
     with_queue
       (heappush (mkSchedEvent (now w1 + RERUN_SECONDS) 1 Act_run)
          (queue initial_world))
       w1) /\
  patches (trace w1) = patches (trace initial_world) /\
  filter (fun te => is_file_action te.2) (trace w1) =
    filter (fun te => is_file_action te.2) (trace initial_world).
Proof.
  apply (empty_batch_is_a_quiet_cycle
           (static_env (inr []) stat_2048 cksum_abc123 patch_accepted
              instantaneous)
           Crawler_get_metadata initial_world
           (open_metadata_db
              (static_env (inr []) stat_2048 cksum_abc123 patch_accepted
                 instantaneous)
              initial_world).2);
    reflexivity.
Defined.

(** No dataset gets through the loop body: it raises before any patch
    call, having looked at no other file than its own. *)
Lemma process_dataset_always_raises E get_metadata dataset w :
  exists e w',
    process_dataset E get_metadata dataset w = (Raise e, w') /\
    patches (trace w') = patches (trace w) /\
    printed (trace w') = printed (trace w) /\
    queue w' = queue w.
Proof.
  destruct (resolve_location (locations dataset) WATCH_SITE)
    as [location |] eqn:Hloc.
  - destruct (env_stat E (now w) (resource location)) as [e | st_size] eqn:Hstat.
    + exists e. eexists.
      split; [apply (process_dataset_stat_raise E get_metadata dataset w
                       location e Hloc Hstat) |].
      cbn [logged trace queue]. rewrite patches_app, printed_app. cbn.
      rewrite !app_nil_r. auto.
    + eexists. eexists.
      split; [apply (process_dataset_cksum E get_metadata dataset w
                       location st_size Hloc Hstat) |].
      cbn [logged trace queue]. rewrite !patches_app, !printed_app. cbn.
      rewrite !app_nil_r. auto.
  - eexists. exists w.
    split; [apply process_dataset_no_location; exact Hloc | auto].
Qed.


(** X15. Whenever the search returns at least one dataset, the cycle
    ends with the exception raised while the first dataset is processed (a
    missing location, an error of [os.stat] or of the subprocess, or the
    [TypeError] of [get_cksum]): no patch call is made, nothing is printed,
    the datasets after the first are not looked at, and [_run] schedules no
    further cycle. *)
Theorem nonempty_batch_ends_the_cycle E get_metadata w w0 dataset rest :
  open_metadata_db E w = (Ret tt, w0) ->
  env_search E (now w0) the_search_request = inr (dataset :: rest) ->
  exists e w1,
    process_dataset E get_metadata dataset
      (logged E (EvSearch the_search_request) w0) = (Raise e, w1) /\
    run E get_metadata w = (Raise e, w1) /\
    _run E get_metadata w = (Raise e, w1) /\
    patches (trace w1) = patches (trace w) /\
    printed (trace w1) = printed (trace w) /\
    queue w1 = queue w.
Proof.
  intros Hopen Hsearch.
  destruct (process_dataset_always_raises E get_metadata dataset
              (logged E (EvSearch the_search_request) w0))
    as (e & w1 & Hd & Hp & Hpr & Hq).
  assert (run E get_metadata w = (Raise e, w1)) as Hrun.
  { rewrite run_eq, Hopen. cbn zeta. rewrite Hsearch, for_each_cons, Hd.
    reflexivity. }
  destruct (only_open_metadata_db E w) as (evs & Ht & Hall & Hq0 & _).
  rewrite Hopen in Ht, Hq0. cbn in Ht, Hq0.
  assert (printed evs = [] /\ patches evs = []) as [Hpr0 Hp0].
  { clear Ht. induction Hall as [| [t ev] evs Hev _ [IH1 IH2]];
      [split; reflexivity |].
    destruct ev; try contradiction; split; assumption. }
  exists e, w1.
  split; [exact Hd |]. split; [exact Hrun |].
  split; [apply _run_raise; exact Hrun |].
  rewrite Hp, Hpr, Hq. cbn [logged trace queue].
  rewrite Ht, !patches_app, !printed_app, Hp0, Hpr0. cbn.
  rewrite !app_nil_r. auto.
Qed.

(** The scenario of the specification: the cycle ends in [get_cksum]. *)
Lemma nonempty_batch_ends_the_cycle_scenario :
  exists e w1,
    process_dataset scenario_env Crawler_get_metadata dataset_d1
      (logged scenario_env (EvSearch the_search_request)
         (open_metadata_db scenario_env initial_world).2) = (Raise e, w1) /\
    run scenario_env Crawler_get_metadata initial_world = (Raise e, w1) /\
    _run scenario_env Crawler_get_metadata initial_world = (Raise e, w1) /\
    patches (trace w1) = patches (trace initial_world) /\
    printed (trace w1) = printed (trace initial_world) /\
    queue w1 = queue initial_world.
Proof.
  apply (nonempty_batch_ends_the_cycle scenario_env Crawler_get_metadata
           initial_world (open_metadata_db scenario_env initial_world).2
           dataset_d1 []);
    reflexivity.
Defined.

(** ** What a cycle writes to the catalog *)





(** ** The daemon as a whole *)

Lemma search_times_app tr evs :
  search_times (tr ++ evs) = search_times tr ++ search_times evs.
Proof. apply omap_app. Qed.

Lemma search_times_none evs :
  Forall (fun te => search_of te = None) evs -> search_times evs = [].
Proof.
  induction 1 as [| [t ev] evs Hte _ IH]; [reflexivity |].
  unfold search_times in *. cbn. destruct ev; try exact IH. discriminate Hte.
Qed.

Lemma spaced_snoc d ts t :
  spaced d ts -> Forall (fun t' => t' + d <= t) ts -> spaced d (ts ++ [t]).
Proof.
  induction ts as [| t0 ts IH]; cbn; intros Hsp Hall.
  - split; [constructor | exact I].
  - destruct Hsp as [Hhd Htl]. inversion Hall as [| ? ? H0 Hrest]; subst.
    split.
    + apply Forall_app. split; [exact Hhd | repeat constructor; exact H0].
    + apply IH; assumption.
Qed.

(** The searches of one cycle, with their times: at most one, made while
    the cycle runs. *)
Lemma run_search_times E get_metadata w :
  exists evs,
    trace (run E get_metadata w).2 = trace w ++ evs /\
    queue (run E get_metadata w).2 = queue w /\
    now w <= now (run E get_metadata w).2 /\
    (search_times evs = [] \/
     exists t, search_times evs = [t] /\
               now w <= t /\ t <= now (run E get_metadata w).2).
Proof.
  rewrite run_eq.
  destruct (only_open_metadata_db E w) as (evs0 & Ht0 & Hall0 & Hq0 & Hn0).
  assert (search_times evs0 = []) as Hs0.
  { apply search_times_none. eapply Forall_impl; [exact Hall0 |].
    intros [t []]; easy. }
  destruct (open_metadata_db E w) as [[[] | e] w0]; cbn in Ht0, Hq0, Hn0.
  - cbn zeta.
    set (w1 := logged E (EvSearch the_search_request) w0).
    match goal with
    | |- exists evs, trace ?r.2 = _ /\ _ => set (outcome := r)
    end.
    assert (exists evs1,
               trace outcome.2 = trace w1 ++ evs1 /\
               search_times evs1 = [] /\
               queue outcome.2 = queue w1 /\
               now w1 <= now outcome.2) as (evs1 & Ht1 & Hs1 & Hq1 & Hn1).
    { subst outcome.
      destruct (env_search E (now w0) the_search_request) as [error | results].
      - destruct (only_search_failed E error w1) as (evs1 & Ht & Hall & Hq & Hn).
        destruct (search_failed_raises E error w1) as (e & w2 & Hfail & _).
        rewrite Hfail in Ht, Hq, Hn |- *. cbn in Ht, Hq, Hn |- *.
        exists evs1. repeat split; try assumption.
        apply search_times_none. eapply Forall_impl; [exact Hall |].
        intros [t []]; easy.
      - destruct (only_for_each is_scan_action
                    (process_dataset E get_metadata) results
                    (only_process_dataset E get_metadata) w1)
          as (evs1 & Ht & Hall & Hq & Hn).
        exists evs1. repeat split; try assumption.
        apply search_times_none. eapply Forall_impl; [exact Hall |].
        intros [t []]; easy. }
    exists (evs0 ++ (now w0, EvSearch the_search_request) :: evs1).
    assert (now w0 <= now w1) as Hn01 by (subst w1; unfold logged, after; cbn; lia).
    split; [rewrite Ht1; subst w1; cbn [logged trace]; rewrite Ht0;
            rewrite <- !app_assoc; reflexivity |].
    split; [rewrite Hq1; subst w1; cbn [logged queue]; exact Hq0 |].
    split; [lia |].
    right. exists (now w0).
    split; [| lia].
    rewrite search_times_app, Hs0.
    change (search_times ((now w0, EvSearch the_search_request) :: evs1))
      with (now w0 :: search_times evs1).
    rewrite Hs1. reflexivity.
  - exists evs0. cbn. auto.
Qed.

Lemma heappush_not_nil ev q : heappush ev q <> [].
Proof. destruct q as [| first rest]; cbn; [| destruct (event_le _ _)]; discriminate. Qed.

Lemma cadence_sleep E tr0 ready d w :
  cadence tr0 ready w -> cadence tr0 ready (sleep E d w).2.
Proof.
  intros (evs & Ht & Hsp & Hall).
  exists (evs ++ [(now w, EvSleep d)]). cbn [sleep snd trace].
  rewrite Ht, app_assoc, search_times_app. cbn. rewrite app_nil_r. auto.
Qed.

Lemma cadence_with_queue tr0 ready q w :
  cadence tr0 ready w -> cadence tr0 ready (with_queue q w).
Proof. intros H. exact H. Qed.

(** One cycle started when the searches made so far allow it. *)
Lemma _run_cadence E get_metadata tr0 ready w :
  cadence tr0 ready w ->
  ready <= now w ->
  queue w = [] ->
  cadence tr0 (now (_run E get_metadata w).2 + RERUN_SECONDS)
    (_run E get_metadata w).2 /\
  match (_run E get_metadata w).1 with
  | Ret _ =>
      queue (_run E get_metadata w).2 =
      [mkSchedEvent (now (_run E get_metadata w).2 + RERUN_SECONDS) 1 Act_run]
  | Raise _ => queue (_run E get_metadata w).2 = []
  end.
Proof.
  intros (evs & Ht & Hsp & Hall) Hready Hq.
  rewrite _run_eq.
  destruct (run_search_times E get_metadata w)
    as (evs1 & Ht1 & Hq1 & Hn1 & Hs1).
  assert (cadence tr0 (now (run E get_metadata w).2 + RERUN_SECONDS)
            (run E get_metadata w).2) as Hcad.
  { exists (evs ++ evs1). rewrite Ht1, Ht, app_assoc, search_times_app.
    split; [reflexivity |].
    destruct Hs1 as [-> | (t & -> & Hlo & Hhi)].
    - rewrite app_nil_r. split; [exact Hsp |].
      eapply Forall_impl; [exact Hall |]. cbn. intros t Ht'.
      unfold RERUN_SECONDS in *. lia.
    - split.
      + apply spaced_snoc; [exact Hsp |].
        eapply Forall_impl; [exact Hall |]. cbn. intros t' Ht'. lia.
      + apply Forall_app. split.
        * eapply Forall_impl; [exact Hall |]. cbn. intros t' Ht'.
          unfold RERUN_SECONDS in *. lia.
        * repeat constructor. lia. }
  destruct (run E get_metadata w) as [[[] | e] w1]; cbn in *.
  - split; [exact Hcad |]. rewrite Hq1, Hq. reflexivity.
  - split; [exact Hcad | congruence].
Qed.

(** The scheduler loop keeps [sched_inv]. *)
Lemma sched_run_inv E get_metadata tr0 fuel w :
  sched_inv tr0 w -> sched_inv tr0 (sched_run E get_metadata fuel w).2.
Proof.
  revert w. induction fuel as [| fuel IH]; intros w Hinv.
  - cbn. destruct (queue w); exact Hinv.
  - destruct (queue w) as [| event rest] eqn:Hq.
    + rewrite sched_run_empty by exact Hq. exact Hinv.
    + destruct Hinv as (Hlen & ready & Hcad & Hdue).
      rewrite Hq in Hlen, Hdue.
      destruct rest as [| second rest]; [| cbn in Hlen; lia].
      assert (ready <= ev_time event) as Hready
        by (inversion Hdue; assumption).
      destruct (Z.lt_ge_cases (now w) (ev_time event)) as [Hwait | Hnow].
      * rewrite (sched_run_wait E get_metadata fuel event [] w Hq Hwait).
        apply IH. split; [cbn [sleep snd queue]; rewrite Hq; cbn; lia |].
        exists ready. split; [apply cadence_sleep; exact Hcad |].
        cbn [sleep snd queue]. rewrite Hq. exact Hdue.
      * rewrite (sched_run_due E get_metadata fuel event [] w Hq Hnow).
        destruct (_run_cadence E get_metadata tr0 ready (with_queue [] w))
          as [Hcad' Hq']; [exact Hcad | cbn; lia | reflexivity |].
        destruct (_run E get_metadata (with_queue [] w)) as [[[] | e] w1];
          cbn in Hcad', Hq' |- *.
        -- apply IH. split; [cbn [sleep snd queue]; rewrite Hq'; cbn; lia |].
           exists (now w1 + RERUN_SECONDS).
           split; [apply cadence_sleep; exact Hcad' |].
           cbn [sleep snd queue]. rewrite Hq'. repeat constructor. cbn. lia.
        -- split; [rewrite Hq'; cbn; lia |].
           exists (now w1 + RERUN_SECONDS).
           split; [exact Hcad' | rewrite Hq'; constructor].
Qed.

Lemma main_inv E get_metadata fuel w :
  sched_inv (trace w) (main E get_metadata fuel w).2.
Proof.
  unfold main.
  change (Crawler_init E get_metadata w)
    with (_run E get_metadata (with_queue [] w)).
  destruct (_run_cadence E get_metadata (trace w) (now w) (with_queue [] w))
    as [Hcad Hq].
  { exists []. cbn. rewrite app_nil_r. repeat split; constructor. }
  { cbn. lia. }
  { reflexivity. }
  destruct (_run E get_metadata (with_queue [] w)) as [[[] | e] w1];
    cbn in Hcad, Hq |- *.
  - apply sched_run_inv. split; [rewrite Hq; cbn; lia |].
    exists (now w1 + RERUN_SECONDS). split; [exact Hcad |].
    rewrite Hq. repeat constructor. cbn. lia.
  - split; [rewrite Hq; cbn; lia |].
    exists (now w1 + RERUN_SECONDS). split; [exact Hcad |].
    rewrite Hq. constructor.
Qed.

(** X8. However long the daemon has been running and whatever happened in
    its cycles, at most one run is pending in the scheduler queue. *)
Theorem at_most_one_run_pending E get_metadata fuel w :
  (length (queue (main E get_metadata fuel w).2) <= 1)%nat.
Proof. apply (main_inv E get_metadata fuel w). Qed.

(** X9. The fixed interval is a minimum cadence: in the whole life of the
    daemon any two catalog searches start at least [RERUN_SECONDS] (5
    seconds) apart, however long the cycles take and however many have
    run. *)
Theorem searches_are_five_seconds_apart E get_metadata fuel w :
  RERUN_SECONDS = 5 /\
  exists evs,
    trace (main E get_metadata fuel w).2 = trace w ++ evs /\
    spaced RERUN_SECONDS (search_times evs).
Proof.
  split; [reflexivity |].
  destruct (main_inv E get_metadata fuel w) as (_ & ready & Hcad & _).
  destruct Hcad as (evs & Ht & Hsp & _).
  exists evs. auto.
Qed.

(** The loop cannot end normally while an event is queued. *)
Lemma sched_run_never_returns E get_metadata fuel w :
  queue w <> [] -> (sched_run E get_metadata fuel w).1 <> Some (Ret tt).
Proof.
  revert w. induction fuel as [| fuel IH]; intros w Hq.
  - cbn. destruct (queue w); [contradiction | discriminate].
  - destruct (queue w) as [| event rest] eqn:Hqueue; [contradiction |].
    destruct (Z.lt_ge_cases (now w) (ev_time event)) as [Hwait | Hnow].
    + rewrite (sched_run_wait E get_metadata fuel event rest w Hqueue Hwait).
      apply IH. cbn [sleep snd queue]. congruence.
    + rewrite (sched_run_due E get_metadata fuel event rest w Hqueue Hnow).
      rewrite _run_eq.
      destruct (run E get_metadata (with_queue rest w)) as [[[] | e] w1];
        [| discriminate].
      apply IH. cbn [sleep snd queue with_queue]. apply heappush_not_nil.
Qed.

(** X10. The daemon has no normal end: [main] never returns.  After any
    number of iterations of the scheduler loop it is either still running
    or has been ended by an exception that left a cycle. *)
Theorem main_never_returns E get_metadata fuel w :
  (main E get_metadata fuel w).1 = None \/
  exists e, (main E get_metadata fuel w).1 = Some (Raise e).
Proof.
  assert ((main E get_metadata fuel w).1 <> Some (Ret tt)) as Hne.
  { unfold main.
    change (Crawler_init E get_metadata w)
      with (_run E get_metadata (with_queue [] w)).
    rewrite _run_eq.
    destruct (run E get_metadata (with_queue [] w)) as [[[] | e] w1];
      [| discriminate].
    apply sched_run_never_returns. cbn. apply heappush_not_nil. }
  destruct (main E get_metadata fuel w).1 as [[[] | e] |];
    [contradiction | right; eauto | left; reflexivity].
Qed.

(** ** A daemon whose cycles all succeed *)

Lemma run_Ret_searches E get_metadata w :
  (run E get_metadata w).1 = Ret tt ->
  searches (trace (run E get_metadata w).2) =
    searches (trace w) ++ [the_search_request].
Proof.
  intros Hret. rewrite run_searches.
  rewrite run_eq in Hret.
  destruct (open_metadata_db E w) as [[[] | e] w0]; [reflexivity |].
  discriminate Hret.
Qed.

Lemma sched_run_searches_mono E get_metadata fuel w :
  (length (searches (trace w)) <=
   length (searches (trace (sched_run E get_metadata fuel w).2)))%nat.
Proof.
  revert w. induction fuel as [| fuel IH]; intros w.
  - cbn. destruct (queue w); cbn; lia.
  - destruct (queue w) as [| event rest] eqn:Hq.
    + rewrite sched_run_empty by exact Hq. cbn. lia.
    + destruct (Z.lt_ge_cases (now w) (ev_time event)) as [Hwait | Hnow].
      * rewrite (sched_run_wait E get_metadata fuel event rest w Hq Hwait).
        etransitivity; [| apply IH].
        cbn [sleep snd trace]. rewrite searches_app. cbn.
        rewrite app_nil_r. lia.
      * rewrite (sched_run_due E get_metadata fuel event rest w Hq Hnow).
        rewrite _run_eq.
        pose proof (run_searches E get_metadata (with_queue rest w)) as Hs.
        destruct (run E get_metadata (with_queue rest w)) as [[[] | e] w1];
          cbn in Hs |- *.
        -- etransitivity; [| apply IH].
           cbn [sleep snd trace with_queue]. rewrite searches_app, Hs. cbn.
           rewrite !length_app. cbn. unfold searches. lia.
        -- rewrite Hs, length_app. unfold searches. lia.
Qed.

(** Two iterations of the scheduler loop are enough for one more cycle. *)
Lemma sched_run_progress E get_metadata :
  (forall w, (run E get_metadata w).1 = Ret tt) ->
  forall n fuel w,
    (2 * n <= fuel)%nat ->
    queue w <> [] ->
    (sched_run E get_metadata fuel w).1 = None /\
    (length (searches (trace w)) + n <=
     length (searches (trace (sched_run E get_metadata fuel w).2)))%nat.
Proof.
  intros Hok.
  assert (forall fuel w, queue w <> [] ->
                         (sched_run E get_metadata fuel w).1 = None) as Hnone.
  { induction fuel as [| fuel IH]; intros w Hq.
    - cbn. destruct (queue w); [contradiction | reflexivity].
    - destruct (queue w) as [| event rest] eqn:Hqueue; [contradiction |].
      destruct (Z.lt_ge_cases (now w) (ev_time event)) as [Hwait | Hnow].
      + rewrite (sched_run_wait E get_metadata fuel event rest w Hqueue Hwait).
        apply IH. cbn [sleep snd queue]. congruence.
      + rewrite (sched_run_due E get_metadata fuel event rest w Hqueue Hnow).
        rewrite _run_eq. pose proof (Hok (with_queue rest w)) as Hret.
        destruct (run E get_metadata (with_queue rest w)) as [[[] | e] w1];
          [| discriminate Hret].
        apply IH. cbn [sleep snd queue with_queue]. apply heappush_not_nil. }
  intros n fuel w Hfuel Hq. split; [apply Hnone; exact Hq |].
  revert fuel w Hfuel Hq. induction n as [| n IH]; intros fuel w Hfuel Hq.
  - rewrite Nat.add_0_r. apply sched_run_searches_mono.
  - destruct fuel as [| [| fuel]]; [lia | lia |].
    destruct (queue w) as [| event rest] eqn:Hqueue; [contradiction |].
    assert (forall fuel' w', (2 * n <= fuel')%nat ->
              queue w' = event :: rest -> ev_time event <= now w' ->
              (length (searches (trace w')) + S n <=
               length (searches
                 (trace (sched_run E get_metadata (S fuel') w').2)))%nat)
      as Hdispatch.
    { intros fuel' w' Hfuel' Hq' Hnow.
      rewrite (sched_run_due E get_metadata fuel' event rest w' Hq' Hnow).
      rewrite _run_eq. pose proof (Hok (with_queue rest w')) as Hret.
      pose proof (run_Ret_searches E get_metadata (with_queue rest w') Hret)
        as Hs.
      destruct (run E get_metadata (with_queue rest w')) as [[[] | e] w1];
        [| discriminate Hret].
      cbn in Hs.
      etransitivity; [| apply IH; [exact Hfuel' |]].
      - cbn [sleep snd trace with_queue]. rewrite searches_app, Hs. cbn.
        rewrite !length_app. cbn. unfold searches. lia.
      - cbn [sleep snd queue with_queue]. apply heappush_not_nil. }
    destruct (Z.lt_ge_cases (now w) (ev_time event)) as [Hwait | Hnow].
    + rewrite (sched_run_wait E get_metadata (S fuel) event rest w Hqueue Hwait).
      etransitivity; [| apply Hdispatch].
      * cbn [sleep snd trace]. rewrite searches_app. cbn.
        rewrite app_nil_r. lia.
      * lia.
      * cbn [sleep snd queue]. exact Hqueue.
      * cbn [sleep snd now]. lia.
    + apply Hdispatch; [lia | exact Hqueue | exact Hnow].
Qed.

(** X11. A daemon whose cycles all return normally polls for ever: it is
    still running after any number of iterations of the scheduler loop, and
    [2 * n] iterations are enough for [n] cycles after the one the
    constructor runs, each with its catalog search. *)
Theorem daemon_keeps_polling E get_metadata w n :
  (forall w', (run E get_metadata w').1 = Ret tt) ->
  (main E get_metadata (2 * n) w).1 = None /\
  (length (searches (trace w)) + n + 1 <=
   length (searches (trace (main E get_metadata (2 * n) w).2)))%nat.
Proof.
  intros Hok. unfold main.
  change (Crawler_init E get_metadata w)
    with (_run E get_metadata (with_queue [] w)).
  rewrite _run_eq. pose proof (Hok (with_queue [] w)) as Hret.
  pose proof (run_Ret_searches E get_metadata (with_queue [] w) Hret) as Hs.
  destruct (run E get_metadata (with_queue [] w)) as [[[] | e] w1];
    [| discriminate Hret].
  cbn [fst snd with_queue trace] in Hs. unfold start.
  destruct (sched_run_progress E get_metadata Hok n (2 * n)
              (with_queue
                 (heappush (mkSchedEvent (now w1 + RERUN_SECONDS) 1 Act_run)
                    (queue w1)) w1))
    as [Hnone Hcount]; [lia | apply heappush_not_nil |].
  split; [exact Hnone |].
  cbn [with_queue trace] in Hcount. rewrite Hs, length_app in Hcount.
  cbn [length] in Hcount. cbn [fst snd]. lia.
Qed.

(** With nothing to scan every cycle succeeds: after four iterations of the
    loop the daemon is still running and has searched three times or more. *)
Lemma daemon_keeps_polling_idle :
  (main idle_env Crawler_get_metadata (2 * 2) initial_world).1 = None /\
  (length (searches (trace initial_world)) + 2 + 1 <=
   length (searches
     (trace (main idle_env Crawler_get_metadata (2 * 2)
               initial_world).2)))%nat.
Proof.
  apply (daemon_keeps_polling idle_env Crawler_get_metadata initial_world 2).
  intros w'. reflexivity.
Defined.

(** ** Catalog errors *)

Lemma process_dataset_raises E get_metadata dataset w e :
  catalog_errors_from_catalog_only E ->
  (process_dataset E get_metadata dataset w).1 = Raise e ->
  not_DcException e.
Proof.
  intros (_ & _ & Hstat_ok & Hck_ok) Hraise.
  destruct (resolve_location (locations dataset) WATCH_SITE)
    as [location |] eqn:Hloc.
  - destruct (env_stat E (now w) (resource location)) as [e' | st_size] eqn:Hstat.
    + rewrite (process_dataset_stat_raise E get_metadata dataset w location e'
                 Hloc Hstat) in Hraise.
      injection Hraise as <-. eapply Hstat_ok, Hstat.
    + rewrite (process_dataset_cksum E get_metadata dataset w location
                 st_size Hloc Hstat) in Hraise.
      injection Hraise as <-.
      destruct (env_cksum E _ (resource location)) as [e' | out] eqn:Hck;
        [eapply Hck_ok, Hck | exact I].
  - rewrite (process_dataset_no_location E get_metadata dataset w Hloc)
      in Hraise.
    injection Hraise as <-. exact I.
Qed.

(** X12. No catalog exception ever leaves a cycle.  Provided the
    credential file, the database, [os.stat] and the [cksum] subprocess do
    not themselves raise [DcException], whatever [run] raises is not a
    [DcException]: the one of the search is turned into [SystemExit(1)] (or
    the handler's own [AttributeError]), the one of a patch call into a
    printed line. *)
Theorem no_catalog_exception_leaves_run E get_metadata w e :
  catalog_errors_from_catalog_only E ->
  (run E get_metadata w).1 = Raise e ->
  not_DcException e.
Proof.
  intros Henv Hraise.
  pose proof Henv as (Hcreds_ok & Hdb_ok & _).
  rewrite run_eq, open_metadata_db_eq in Hraise. cbn zeta in Hraise.
  destruct (env_readCredentialFile E (now w) "~/.mysqlAuthLSST")
    as [e' | creds] eqn:Hcreds.
  { injection Hraise as <-. eapply Hcreds_ok, Hcreds. }
  destruct (creds !! "user") as [user |]; [| injection Hraise as <-; exact I].
  destruct (env_dbOpen E _ _ _) as [e' |] eqn:Hdb.
  { injection Hraise as <-. eapply Hdb_ok, Hdb. }
  destruct (env_search E _ the_search_request) as [error | results].
  - match type of Hraise with
    | context [search_failed E error ?w0] =>
        destruct (search_failed_raises E error w0)
          as (e' & w' & Hfail & [-> | (-> & _)])
    end; rewrite Hfail in Hraise; injection Hraise as <-; exact I.
  - match type of Hraise with
    | (for_each results _ ?w0).1 = _ => generalize dependent w0
    end.
    induction results as [| dataset results IH]; intros w0 Hraise.
    + discriminate Hraise.
    + rewrite for_each_cons in Hraise.
      destruct (process_dataset E get_metadata dataset w0)
        as [[[] | e'] w'] eqn:Hd.
      * apply (IH w'). exact Hraise.
      * injection Hraise as <-.
        apply (process_dataset_raises E get_metadata dataset w0 e' Henv).
        rewrite Hd. reflexivity.
Qed.

(** The first dataset is not on disk: the cycle ends with the [OSError] of
    [os.stat], which is no catalog exception. *)
Lemma no_catalog_exception_leaves_run_missing_file :
  catalog_errors_from_catalog_only missing_file_env /\
  (run missing_file_env Crawler_get_metadata initial_world).1 =
    Raise (OSError "/data/f2.fits") /\
  not_DcException (OSError "/data/f2.fits").
Proof.
  assert (catalog_errors_from_catalog_only missing_file_env) as Henv.
  { repeat split; cbn.
    - intros t file e [=].
    - intros t file db e [=].
    - intros t file e. destruct (String.eqb file "/data/f2.fits");
        intros [=]. subst e. exact I.
    - intros t file e [=]. }
  split; [exact Henv |]. split; [reflexivity |].
  apply (no_catalog_exception_leaves_run missing_file_env Crawler_get_metadata
           initial_world (OSError "/data/f2.fits") Henv).
  reflexivity.
Defined.

(** * The image server *)

(** ** [get_ds] *)

Lemma ascii_lower_idemp c : ascii_lower (ascii_lower c) = ascii_lower c.
Proof. destruct c as [[] [] [] [] [] [] [] []]; reflexivity. Qed.

Lemma str_lower_idemp s : str_lower (str_lower s) = str_lower s.
Proof.
  induction s as [| c s IH]; cbn; [reflexivity |].
  rewrite ascii_lower_idemp, IH. reflexivity.
Qed.

Lemma str_lower_blank s :
  In " "%char (list_ascii_of_string s) ->
  In " "%char (list_ascii_of_string (str_lower s)).
Proof.
  induction s as [| c s IH]; cbn; [tauto |].
  intros [-> | Hin]; [left; reflexivity | right; auto].
Qed.

Lemma get_ds_inr s c : get_ds s = inr c <-> str_lower s = ds_name c.
Proof.
  unfold get_ds.
  destruct (String.eqb_spec (str_lower s) "raw") as [-> | Hraw].
  { destruct c; cbn; split; intros H; try discriminate H; reflexivity. }
  destruct (String.eqb_spec (str_lower s) "calexp") as [-> | Hcalexp].
  { destruct c; cbn; split; intros H; try discriminate H; reflexivity. }
  destruct (String.eqb_spec (str_lower s) "deepcoadd") as [-> | Hcoadd].
  { destruct c; cbn; split; intros H; try discriminate H; reflexivity. }
  split; [discriminate |]. destruct c; cbn; intros H; contradiction.
Qed.

(** X13. [get_ds] knows exactly three image types, in any letter case: it
    returns a class precisely when the lower-cased argument is [raw],
    [calexp] or [deepcoadd], the class depending on nothing but that
    lower-cased name; every other string raises
    [Exception("Invalid ds parameter")], and so does every string holding a
    blank, since [get_ds] does not strip its argument. *)
Theorem get_ds_image_types :
  (forall s c, get_ds s = inr c <-> str_lower s = ds_name c) /\
  (forall s, get_ds (str_lower s) = get_ds s) /\
  (forall s e, get_ds s = inl e -> e = Exception "Invalid ds parameter") /\
  (forall s, In " "%char (list_ascii_of_string s) ->
             get_ds s = inl (Exception "Invalid ds parameter")) /\
  get_ds "DeepCoadd" = inr W13DeepCoaddDb.
Proof.
  split; [exact get_ds_inr |].
  split; [intros s; unfold get_ds; rewrite str_lower_idemp; reflexivity |].
  split.
  { intros s e. unfold get_ds.
    repeat (destruct (String.eqb _ _); [discriminate |]).
    intros [= <-]. reflexivity. }
  split; [| reflexivity].
  intros s Hblank. apply str_lower_blank in Hblank.
  destruct (get_ds s) as [e | c] eqn:Hds.
  - f_equal. revert Hds. unfold get_ds.
    repeat (destruct (String.eqb _ _); [discriminate |]).
    intros [= <-]. reflexivity.
  - apply get_ds_inr in Hds. rewrite Hds in Hblank.
    destruct c; cbn in Hblank; intuition discriminate.
Qed.

(** ** The werkzeug options of the server *)

Lemma startswith_spec key prefix :
  startswith key prefix = true <-> exists k, key = prefix +:+ k.
Proof.
  revert key. induction prefix as [| p prefix IH]; intros key.
  - split; [intros _; exists key; reflexivity |].
    intros _. destruct key; reflexivity.
  - destruct key as [| c key].
    + split; [discriminate | intros [k Hk]; discriminate Hk].
    + change (startswith (String c key) (String p prefix))
        with (Ascii.eqb c p && startswith key prefix).
      destruct (Ascii.eqb_spec c p) as [-> | Hc].
      * rewrite andb_true_l, IH. split; intros [k Hk]; exists k.
        -- rewrite Hk. reflexivity.
        -- injection Hk as ->. reflexivity.
      * split; [discriminate | intros [k Hk]].
        injection Hk as -> _. contradiction.
Qed.

Lemma str_from_append prefix k :
  str_from (String.length prefix) (prefix +:+ k) = k.
Proof. induction prefix as [| p prefix IH]; cbn; [destruct k |]; auto. Qed.

Lemma append_inj prefix k1 k2 : prefix +:+ k1 = prefix +:+ k2 -> k1 = k2.
Proof.
  induction prefix as [| p prefix IH]; cbn; [auto |].
  intros [= H]. auto.
Qed.

Lemma extract_werkzeug_options_lookup items :
  NoDup items.*1 ->
  forall acc k v,
    extract_werkzeug_options items acc !! k = Some v <->
    ((WERKZEUG_PREFIX +:+ k, v) ∈ items) \/
    (((WERKZEUG_PREFIX +:+ k) ∉ items.*1) /\ acc !! k = Some v).
Proof.
  induction items as [| [key value] rest IH]; intros Hnodup acc k v.
  - cbn. split.
    + intros H. right. split; [apply not_elem_of_nil | exact H].
    + intros [H | [_ H]]; [apply elem_of_nil in H; contradiction | exact H].
  - cbn [fmap list_fmap fst] in Hnodup. apply NoDup_cons in Hnodup.
    destruct Hnodup as [Hfresh Hnodup].
    cbn [extract_werkzeug_options]. rewrite (IH Hnodup).
    cbn [fmap list_fmap fst]. rewrite elem_of_cons, not_elem_of_cons.
    assert ((WERKZEUG_PREFIX +:+ k, v) ∈ rest ->
            (WERKZEUG_PREFIX +:+ k) ∈ rest.*1) as Hin.
    { intros H. apply list_elem_of_fmap. exists (WERKZEUG_PREFIX +:+ k, v). auto. }
    destruct (startswith key WERKZEUG_PREFIX) eqn:Hstart.
    + apply startswith_spec in Hstart. destruct Hstart as [k0 ->].
      rewrite str_from_append.
      destruct (decide (k = k0)) as [-> | Hk].
      * rewrite lookup_insert_eq. split.
        -- intros [H | [_ [= ->]]]; [apply Hin in H; contradiction | auto].
        -- intros [[[= ->] | H] | [[Hne _] _]];
             [right; auto | apply Hin in H; contradiction | congruence].
      * rewrite lookup_insert_ne by congruence.
        assert (WERKZEUG_PREFIX +:+ k <> WERKZEUG_PREFIX +:+ k0) as Hne
          by (intros H; apply append_inj in H; contradiction).
        split.
        -- intros [H | [Hn Hacc]]; [left; right; exact H | right; auto].
        -- intros [[[= H _] | H] | [[_ Hn] Hacc]];
             [contradiction | left; exact H | right; auto].
    + assert (forall k', key <> WERKZEUG_PREFIX +:+ k') as Hne.
      { intros k' ->.
        assert (startswith (WERKZEUG_PREFIX +:+ k') WERKZEUG_PREFIX = true)
          as H by (apply startswith_spec; eauto).
        congruence. }
      split.
      * intros [H | [Hn Hacc]]; [left; right; exact H |].
        right. split; [split; [| exact Hn] | exact Hacc].
        intros H. symmetry in H. exact (Hne k H).
      * intros [[[= H _] | H] | [[_ Hn] Hacc]];
          [symmetry in H; destruct (Hne k H) | left; exact H | right; auto].
Qed.

(** X14. The werkzeug options are exactly the entries of the [webserv]
    section whose key starts with [dax.webserv.werkzeug.], under the key
    with that prefix removed and with their value unchanged: option [k] has
    value [v] precisely when the section holds [dax.webserv.werkzeug.k] with
    value [v].  Entries without the prefix never become options. *)
Theorem werkzeug_options_are_the_prefixed_entries items k v :
  NoDup items.*1 ->
  werkzeug_options_of items !! k = Some v <->
  (WERKZEUG_PREFIX +:+ k, v) ∈ items.
Proof.
  intros Hnodup. unfold werkzeug_options_of.
  rewrite (extract_werkzeug_options_lookup items Hnodup).
  rewrite lookup_empty. split; [| auto].
  intros [H | [_ H]]; [exact H | discriminate H].
Qed.

(** A section with a host, a port and one werkzeug option. *)
Lemma werkzeug_options_are_the_prefixed_entries_threaded :
  let items := [("dax.webserv.host", "0.0.0.0");
                ("dax.webserv.werkzeug.threaded", "True");
                ("dax.webserv.port", "5000")] in
  NoDup items.*1 /\
  (werkzeug_options_of items !! "threaded" = Some "True" <->
   (WERKZEUG_PREFIX +:+ "threaded", "True") ∈ items).
Proof.
  assert (NoDup [("dax.webserv.host", "0.0.0.0");
                 ("dax.webserv.werkzeug.threaded", "True");
                 ("dax.webserv.port", "5000")].*1) as Hnodup
    by compute_done.
  split; [exact Hnodup |].
  apply (werkzeug_options_are_the_prefixed_entries
           [("dax.webserv.host", "0.0.0.0");
            ("dax.webserv.werkzeug.threaded", "True");
            ("dax.webserv.port", "5000")] "threaded" "True" Hnodup).
Defined.

Example werkzeug_options_of_example :
  werkzeug_options_of [("dax.webserv.host", "0.0.0.0");
                       ("dax.webserv.werkzeug.threaded", "True");
                       ("dax.webserv.port", "5000")] =
  {[ "threaded" := "True" ]}.
Proof. reflexivity. Qed.
